(** * Ball-in-the-tube monitor: serial framing, frame codec, history window
      and transport session of [app/bola_no_tubo.py]

    The development embeds the protocol core of the Tkinter application:
    the reader loop that cuts the byte stream into frames by idle gaps,
    [_handle_frame] (decode, readouts, plot history), the command path
    ([clamp], percentage scaling, [struct.pack], [_send]) and the
    connection life cycle ([_connect], [_disconnect]).  Widget layout and
    plot rendering are left out.

    The file has three parts: the model, function by function in the order
    of the source; the vocabulary the statements use; the proofs.

    Conventions of the embedding.
    - Python [int] is [Z]; [bytes] is [list byte].
    - Clock readings ([time.monotonic()], [time.time()]) are inputs of the
      model, given as exact rationals [Q] in seconds; the binary64 rounding
      of the two clock subtractions is not modelled.
    - Floats computed from integers (percentages, the rounding of a
      setpoint) are IEEE binary64 values, [PrimFloat.float].
    - A Python exception is the [Raise] branch of the result type [res];
      [try/except] is [try_except].
    - What the environment decides (what a read returns, whether a write or
      a close faults, whether the thread is still alive) is an argument.
    - The program takes no lock.  [step] takes a call of [_handle_frame] in
      one piece; [thread_step] takes it one deque operation at a time, the
      callbacks of the main loop running in between as the scheduler
      chooses. *)

From Stdlib Require Import Strings.Byte String DecimalString.
From Stdlib Require Import ZArith QArith Lqa Floats List Sorted Bool Lia.
Import ListNotations.
Open Scope Z_scope.

(** ** Protocol and serial parameters *)

Definition BAUDRATE : Z := 115200.
Definition BYTES_PER_FRAME_RX : nat := 15.
Definition BYTES_PER_FRAME_TX : nat := 7.
Definition READ_TIMEOUT : Q := 0.05.
Definition PLOT_WINDOW_SECONDS : Z := 60.
Definition HEIGHT_MAX_MM : Z := 500.
Definition MAX_DUTY_RAW : Z := 1023.
Definition MAX_VALVE_STEPS : Z := 420.
Definition FRAME_GAP_S : Q := 0.040.

(** ** Exceptions *)

Inductive exn : Type :=
| StructError      (* struct.error *)
| ValueError       (* tuple unpacking of the wrong arity, round(nan) *)
| OverflowError    (* round(inf) *)
| IndexError       (* popleft on an empty deque *)
| SerialException  (* any fault of the serial port *)
| TclError.        (* IntVar.get() on text that is not a number *)

Inductive res (A : Type) : Type :=
| Ret (a : A)
| Raise (e : exn).

Arguments Ret {A} a.
Arguments Raise {A} e.

Definition bind {A B : Type} (m : res A) (k : A -> res B) : res B :=
  match m with
  | Ret a => k a
  | Raise e => Raise e
  end.

(** [try: m except Exception: h]. *)
Definition try_except {A : Type} (m : res A) (h : exn -> res A) : res A :=
  match m with
  | Ret a => Ret a
  | Raise e => h e
  end.

Declare Scope res_scope.
Delimit Scope res_scope with res.
Notation "x <- m ;; k" := (bind m (fun x => k))
  (at level 61, m at next level, right associativity) : res_scope.
Open Scope res_scope.

(** ** Bytes and the [struct] module (big-endian, standard sizes) *)

Definition byte_val (b : byte) : Z := Z.of_N (Byte.to_N b).

Definition byte_of (z : Z) : byte :=
  match Byte.of_N (Z.to_N z) with
  | Some b => b
  | None => x00
  end.

(** The two format characters the program uses: ['B'] (unsigned char) and
    ['H'] (unsigned short).  Blanks in a format string are ignored and the
    leading ['>'] selects big-endian without padding. *)
Inductive fmt_code : Type := fmt_B | fmt_H.

Definition code_size (c : fmt_code) : nat :=
  match c with fmt_B => 1%nat | fmt_H => 2%nat end.

Definition code_max (c : fmt_code) : Z :=
  match c with fmt_B => 255 | fmt_H => 65535 end.

Fixpoint calcsize (fmt : list fmt_code) : nat :=
  match fmt with
  | [] => 0%nat
  | c :: fmt' => (code_size c + calcsize fmt')%nat
  end.

Definition pack_field (c : fmt_code) (v : Z) : list byte :=
  match c with
  | fmt_B => [byte_of v]
  | fmt_H => [byte_of (Z.shiftr v 8); byte_of (Z.land v 255)]
  end.

(** [struct.pack]: [struct.error] on a wrong number of values or on a value
    outside the range of its format character. *)
Fixpoint struct_pack (fmt : list fmt_code) (vals : list Z) : res (list byte) :=
  match fmt, vals with
  | [], [] => Ret []
  | c :: fmt', v :: vals' =>
      if (0 <=? v) && (v <=? code_max c)
      then rest <- struct_pack fmt' vals' ;; Ret (pack_field c v ++ rest)
      else Raise StructError
  | _, _ => Raise StructError
  end.

Definition unpack_field (c : fmt_code) (bs : list byte) : Z :=
  match c with
  | fmt_B => byte_val (nth 0 bs x00)
  | fmt_H => Z.lor (Z.shiftl (byte_val (nth 0 bs x00)) 8) (byte_val (nth 1 bs x00))
  end.

Fixpoint read_fields (fmt : list fmt_code) (bs : list byte) : list Z :=
  match fmt with
  | [] => []
  | c :: fmt' => unpack_field c bs :: read_fields fmt' (skipn (code_size c) bs)
  end.

(** [struct.unpack]: [struct.error] unless the buffer has exactly the size
    of the format. *)
Definition struct_unpack (fmt : list fmt_code) (bs : list byte) : res (list Z) :=
  if Nat.eqb (length bs) (calcsize fmt)
  then Ret (read_fields fmt bs)
  else Raise StructError.

(** ['>B H H H H H H H'] and ['>B H H H']. *)
Definition RX_FORMAT : list fmt_code :=
  [fmt_B; fmt_H; fmt_H; fmt_H; fmt_H; fmt_H; fmt_H; fmt_H].
Definition TX_FORMAT : list fmt_code := [fmt_B; fmt_H; fmt_H; fmt_H].

(** ** Utilities *)

Definition be_u16 (b : list byte) : res Z :=
  vals <- struct_unpack [fmt_H] b ;;
  match vals with
  | v :: _ => Ret v
  | [] => Raise IndexError
  end.

Definition clamp (val lo hi : Z) : Z := Z.max lo (Z.min hi val).

(** ** Floats computed from integers *)

(** Conversion of a Python [int] to [float], for integers below [2^63] in
    absolute value (exact below [2^53]); the program converts raw 16-bit
    fields and products of a percentage by a scale. *)
Definition float_of_int (n : Z) : float :=
  match n with
  | Z0 => 0%float
  | Zpos _ => PrimFloat.of_uint63 (Uint63.of_Z n)
  | Zneg p => PrimFloat.opp (PrimFloat.of_uint63 (Uint63.of_Z (Zpos p)))
  end.

(** The integer nearest to [m * 2^e], a tie going to the even neighbour. *)
Definition round_half_even_dyadic (m e : Z) : Z :=
  if 0 <=? e then m * 2 ^ e
  else
    let d := 2 ^ (- e) in
    let q := m / d in
    let r := m mod d in
    if 2 * r <? d then q
    else if d <? 2 * r then q + 1
    else if Z.even q then q else q + 1.

(** Python 3 [round(x)] of a float, one argument: the nearest integer, ties
    to even; it raises on infinities and NaN. *)
Definition py_round (x : float) : res Z :=
  match Prim2SF x with
  | S754_zero _ => Ret 0
  | S754_finite s m e =>
      let r := round_half_even_dyadic (Zpos m) e in
      Ret (if s then - r else r)
  | S754_infinity _ => Raise OverflowError
  | S754_nan => Raise ValueError
  end.

(** [int(round(pct * max_raw / 100.0))], the expression
    [_send_current_command] writes for the valve and for the fan. *)
Definition scale_pct (pct max_raw : Z) : res Z :=
  py_round (PrimFloat.div (float_of_int (pct * max_raw)) 100%float).

(** [(raw / max_raw) * 100.0 if max_raw else 0.0], the percentage
    [_handle_frame] stores for plotting. *)
Definition raw_to_pct (raw max_raw : Z) : float :=
  if max_raw =? 0 then 0%float
  else PrimFloat.mul (PrimFloat.div (float_of_int raw) (float_of_int max_raw)) 100%float.

(** ** Application state *)

(** The open [serial.Serial] object, with the payloads handed to [write]. *)
Record serial_port : Type := {
  port : string;
  is_open : bool;
  written : list (list byte)
}.

Inductive thread : Type := ReaderThread.

(** The message boxes the program opens. *)
Inductive dialog : Type :=
| WarnSelectPort     (* showwarning: no port selected *)
| ErrConnection      (* showerror: the port could not be opened *)
| WarnNotConnected   (* showwarning("Serial", not connected) *)
| ErrTxFrameSize     (* showerror("Protocolo", invalid TX frame size) *)
| ErrTx.             (* showerror("Erro TX", str(e)) *)

(** Texts of the status label and of the connect button. *)
Inductive status_text : Type :=
| StatusDisconnected
| StatusConnected (p : string) (baud : Z)
| StatusSent (payload : list byte)
| StatusReadError.

Inductive button_text : Type := BtnConnect | BtnDisconnect.

Record connection : Type := {
  ser : option serial_port;
  reader_thread : option thread;
  reader_alive : bool
}.

Record widgets : Type := {
  connect_btn : button_text;
  status_label : status_text;
  dialogs : list dialog
}.

(** What the operator has selected or typed.  An [IntVar] whose entry text
    is not a number makes [get()] raise: that content is [None]. *)
Record inputs : Type := {
  port_combo : string;
  mode_combo : Z;                       (* mode_combo.current(): -1 or an index *)
  sp_height_var : option Z;
  sp_valve_var : option Z;
  sp_duty_var : option Z;
  window_seconds_var : option Z
}.

Record rx_vars : Type := {
  rx_mode : Z;
  rx_height : Z;
  rx_height_sp : Z;
  rx_tof : Z;
  rx_temp_x10 : Z;
  rx_valve_sp : Z;
  rx_valve_pos : Z;
  rx_duty : Z;
  rx_temp_degC : string
}.

(** The five deques behind the plots; the head of a list is the left end. *)
Record history : Type := {
  t_hist : list Q;
  sp_height_hist : list Z;
  meas_height_hist : list Z;
  duty_pct_hist : list float;
  valve_pct_hist : list float
}.

Record BolaNoTuboApp : Type := {
  conn : connection;
  ui : widgets;
  entries : inputs;
  rx : rx_vars;
  hist : history;
  window_seconds : Z
}.

Definition with_conn (c : connection) (a : BolaNoTuboApp) : BolaNoTuboApp :=
  {| conn := c; ui := ui a; entries := entries a; rx := rx a; hist := hist a;
     window_seconds := window_seconds a |}.
Definition with_ui (w : widgets) (a : BolaNoTuboApp) : BolaNoTuboApp :=
  {| conn := conn a; ui := w; entries := entries a; rx := rx a; hist := hist a;
     window_seconds := window_seconds a |}.
Definition with_entries (e : inputs) (a : BolaNoTuboApp) : BolaNoTuboApp :=
  {| conn := conn a; ui := ui a; entries := e; rx := rx a; hist := hist a;
     window_seconds := window_seconds a |}.
Definition with_rx (r : rx_vars) (a : BolaNoTuboApp) : BolaNoTuboApp :=
  {| conn := conn a; ui := ui a; entries := entries a; rx := r; hist := hist a;
     window_seconds := window_seconds a |}.
Definition with_hist (h : history) (a : BolaNoTuboApp) : BolaNoTuboApp :=
  {| conn := conn a; ui := ui a; entries := entries a; rx := rx a; hist := h;
     window_seconds := window_seconds a |}.
Definition with_window_seconds (w : Z) (a : BolaNoTuboApp) : BolaNoTuboApp :=
  {| conn := conn a; ui := ui a; entries := entries a; rx := rx a; hist := hist a;
     window_seconds := w |}.

Definition show_dialog (d : dialog) (a : BolaNoTuboApp) : BolaNoTuboApp :=
  with_ui {| connect_btn := connect_btn (ui a); status_label := status_label (ui a);
             dialogs := dialogs (ui a) ++ [d] |} a.
Definition set_status (s : status_text) (a : BolaNoTuboApp) : BolaNoTuboApp :=
  with_ui {| connect_btn := connect_btn (ui a); status_label := s;
             dialogs := dialogs (ui a) |} a.
Definition set_connect_btn (b : button_text) (a : BolaNoTuboApp) : BolaNoTuboApp :=
  with_ui {| connect_btn := b; status_label := status_label (ui a);
             dialogs := dialogs (ui a) |} a.
Definition set_ser (s : option serial_port) (a : BolaNoTuboApp) : BolaNoTuboApp :=
  with_conn {| ser := s; reader_thread := reader_thread (conn a);
               reader_alive := reader_alive (conn a) |} a.
Definition set_reader_alive (b : bool) (a : BolaNoTuboApp) : BolaNoTuboApp :=
  with_conn {| ser := ser (conn a); reader_thread := reader_thread (conn a);
               reader_alive := b |} a.
Definition set_reader_thread (t : option thread) (a : BolaNoTuboApp) : BolaNoTuboApp :=
  with_conn {| ser := ser (conn a); reader_thread := t;
               reader_alive := reader_alive (conn a) |} a.

Definition intvar_get (v : option Z) : res Z :=
  match v with
  | Some z => Ret z
  | None => Raise TclError
  end.

(** [__init__]: nothing connected, empty deques, the first mode selected. *)
Definition init_app : BolaNoTuboApp := {|
  conn := {| ser := None; reader_thread := None; reader_alive := false |};
  ui := {| connect_btn := BtnConnect; status_label := StatusDisconnected; dialogs := [] |};
  entries := {| port_combo := EmptyString; mode_combo := 0;
                sp_height_var := Some 0; sp_valve_var := Some 0; sp_duty_var := Some 0;
                window_seconds_var := Some PLOT_WINDOW_SECONDS |};
  rx := {| rx_mode := 0; rx_height := 0; rx_height_sp := 0; rx_tof := 0; rx_temp_x10 := 0;
           rx_valve_sp := 0; rx_valve_pos := 0; rx_duty := 0; rx_temp_degC := "0.0" |};
  hist := {| t_hist := []; sp_height_hist := []; meas_height_hist := [];
             duty_pct_hist := []; valve_pct_hist := [] |};
  window_seconds := PLOT_WINDOW_SECONDS
|}.

(** The truth value of [self.ser and self.ser.is_open]. *)
Definition connected (a : BolaNoTuboApp) : bool :=
  match ser (conn a) with
  | Some s => is_open s
  | None => false
  end.

(** ** Connection *)

(** [serial.Serial(port=..., baudrate=BAUDRATE, timeout=READ_TIMEOUT)]. *)
Definition serial_open (fault : bool) (p : string) : res serial_port :=
  if fault then Raise SerialException
  else Ret {| port := p; is_open := true; written := [] |}.

Definition serial_close (fault : bool) (s : serial_port) : res serial_port :=
  if fault then Raise SerialException
  else Ret {| port := port s; is_open := false; written := written s |}.

Definition serial_write (fault : bool) (payload : list byte) (s : serial_port)
  : res serial_port :=
  if fault then Raise SerialException
  else Ret {| port := port s; is_open := is_open s; written := written s ++ [payload] |}.

Definition _connect (open_fault : bool) (a : BolaNoTuboApp) : BolaNoTuboApp :=
  let p := port_combo (entries a) in
  match p with
  | EmptyString => show_dialog WarnSelectPort a
  | _ =>
      match serial_open open_fault p with
      | Ret s =>
          let a := set_ser (Some s) a in
          let a := set_reader_alive true a in
          let a := set_reader_thread (Some ReaderThread) a in
          let a := set_connect_btn BtnDisconnect a in
          set_status (StatusConnected p BAUDRATE) a
      | Raise _ =>
          let a := show_dialog ErrConnection a in
          let a := set_ser None a in
          let a := set_connect_btn BtnConnect a in
          set_status StatusDisconnected a
      end
  end.

(** [reader_thread.join(timeout=1.0)]: a bounded wait for the loop to end;
    no attribute of the application changes. *)
Definition join_timeout (t : thread) (a : BolaNoTuboApp) : BolaNoTuboApp := a.

(** [thread_alive] answers [reader_thread.is_alive()].  A fault of [close]
    is swallowed by [except Exception: pass]. *)
Definition _disconnect (thread_alive close_fault : bool) (a : BolaNoTuboApp)
  : res BolaNoTuboApp :=
  let a := set_reader_alive false a in
  let a :=
    match reader_thread (conn a) with
    | Some t => if thread_alive then join_timeout t a else a
    | None => a
    end in
  _ <- match ser (conn a) with
       | Some s => try_except (_ <- serial_close close_fault s ;; Ret tt) (fun _ => Ret tt)
       | None => Ret tt
       end ;;
  let a := set_ser None a in
  let a := set_connect_btn BtnConnect a in
  Ret (set_status StatusDisconnected a).

Definition _toggle_connection (thread_alive fault : bool) (a : BolaNoTuboApp)
  : res BolaNoTuboApp :=
  if connected a then _disconnect thread_alive fault a
  else Ret (_connect fault a).


(** ** The reader loop: frames delimited by idle gaps *)

(** The loop's own state: [self.buffer], the local [last_byte_t], and the
    record of its calls [self._handle_frame(bytes(self.buffer))], oldest
    first.  [_handle_frame] reads and writes neither of the first two. *)
Record reader : Type := {
  buffer : list byte;
  last_byte_t : option Q;
  handled : list (list byte)
}.

Definition Qgtb (x y : Q) : bool := negb (Qle_bool x y).
Definition Qltb (x y : Q) : bool := negb (Qle_bool y x).

(** [last_byte_t is not None and (t - last_byte_t) > FRAME_GAP_S]. *)
Definition gap_elapsed (last : option Q) (t : Q) : bool :=
  match last with
  | Some l => Qgtb (t - l) FRAME_GAP_S
  | None => false
  end.

(** The finalisation the loop writes in both branches: hand the buffer to
    [_handle_frame] when it holds exactly one frame, then clear it. *)
Definition finalize (r : reader) : reader :=
  let calls :=
    if Nat.eqb (length (buffer r)) BYTES_PER_FRAME_RX
    then handled r ++ [buffer r]
    else handled r in
  {| buffer := []; last_byte_t := last_byte_t r; handled := calls |}.

(** Body of [for b in chunk], with [t] the clock reading of that round. *)
Definition on_byte (r : reader) (bt : byte * Q) : reader :=
  let (b, t) := bt in
  let r := if gap_elapsed (last_byte_t r) t then finalize r else r in
  {| buffer := buffer r ++ [b]; last_byte_t := Some t; handled := handled r |}.

(** The [else] branch: a read that returned no byte. *)
Definition on_idle (now : Q) (r : reader) : reader :=
  if gap_elapsed (last_byte_t r) now && negb (Nat.eqb (length (buffer r)) 0)
  then
    let r := finalize r in
    {| buffer := buffer r; last_byte_t := None; handled := handled r |}
  else r.

(** What one [self.ser.read(256)] gives: the bytes, each with the reading of
    [time.monotonic()] taken when the loop reaches it, and the reading [now]
    taken right after the read; or an exception. *)
Inductive read_outcome : Type :=
| ReadOk (chunk : list (byte * Q)) (now : Q)
| ReadFault.

Definition loop_body (chunk : list (byte * Q)) (now : Q) (r : reader) : reader :=
  match chunk with
  | [] => on_idle now r
  | _ :: _ => fold_left on_byte chunk r
  end.

(** One round per read outcome, for as long as the loop condition holds;
    the flag tells that the loop left through [except] (which reports the
    fault and schedules [_disconnect]). *)
Fixpoint reader_rounds (reads : list read_outcome) (r : reader) : reader * bool :=
  match reads with
  | [] => (r, false)
  | ReadOk chunk now :: rest => reader_rounds rest (loop_body chunk now r)
  | ReadFault :: _ => (r, true)
  end.

Definition reader_start : reader :=
  {| buffer := []; last_byte_t := None; handled := [] |}.

Definition _reader_loop (reads : list read_outcome) : reader * bool :=
  reader_rounds reads reader_start.

(** The frames the loop hands to [_handle_frame], in order. *)
Definition emitted (reads : list read_outcome) : list (list byte) :=
  handled (fst (_reader_loop reads)).

(** ** Frame handling: decode, readouts, plot history *)

Record sample : Type := {
  mode : Z;
  height_setpoint : Z;
  height_measured : Z;
  flight_time_avg : Z;
  temperature : Z;
  valve_setpoint : Z;
  valve_position : Z;
  fan_duty : Z
}.

(** The head of [_handle_frame]: the length guard and
    [A, B, C, D, E, F, G, H = struct.unpack('>B H H H H H H H', frame)];
    [None] stands for both early returns. *)
Definition decode_frame (frame : list byte) : option sample :=
  if negb (Nat.eqb (length frame) BYTES_PER_FRAME_RX) then None
  else
    match struct_unpack RX_FORMAT frame with
    | Ret [A; B; C; D; E; F; G; H] =>
        Some {| mode := A; height_setpoint := B; height_measured := C;
                flight_time_avg := D; temperature := E; valve_setpoint := F;
                valve_position := G; fan_duty := H |}
    | _ => None
    end.

Definition string_of_Z (z : Z) : string := NilZero.string_of_int (Z.to_int z).

(** [f"{E/10.0:.1f}"] for a count [E] of tenths: the quotient, a point, the
    last digit. *)
Definition format_tenths (E : Z) : string :=
  (string_of_Z (E / 10) ++ "." ++ string_of_Z (E mod 10))%string.

Definition set_rx_vars (s : sample) (a : BolaNoTuboApp) : BolaNoTuboApp :=
  with_rx {| rx_mode := mode s;
             rx_height_sp := height_setpoint s;
             rx_height := height_measured s;
             rx_tof := flight_time_avg s;
             rx_temp_x10 := temperature s;
             rx_valve_sp := valve_setpoint s;
             rx_valve_pos := valve_position s;
             rx_duty := fan_duty s;
             rx_temp_degC := format_tenths (temperature s) |} a.

Definition popleft {T : Type} (d : list T) : res (list T) :=
  match d with
  | _ :: d' => Ret d'
  | [] => Raise IndexError
  end.

(** [while self.t_hist and self.t_hist[0] < tmin:] five [popleft]s. *)
Fixpoint evict (tmin : Q) (ts : list Q) (sp meas : list Z) (duty valve : list float)
  : res history :=
  match ts with
  | t0 :: ts' =>
      if Qltb t0 tmin then
        sp' <- popleft sp ;;
        meas' <- popleft meas ;;
        duty' <- popleft duty ;;
        valve' <- popleft valve ;;
        evict tmin ts' sp' meas' duty' valve'
      else
        Ret {| t_hist := ts; sp_height_hist := sp; meas_height_hist := meas;
               duty_pct_hist := duty; valve_pct_hist := valve |}
  | [] =>
      Ret {| t_hist := []; sp_height_hist := sp; meas_height_hist := meas;
             duty_pct_hist := duty; valve_pct_hist := valve |}
  end.

(** The tail of [_handle_frame]: five appends with [now = time.time()], then
    the eviction of what has left the window. *)
Definition push_history (now : Q) (window : Z) (s : sample) (h : history) : res history :=
  let duty_pct := raw_to_pct (fan_duty s) MAX_DUTY_RAW in
  let valve_pct := raw_to_pct (valve_position s) MAX_VALVE_STEPS in
  let tmin := (now - inject_Z window)%Q in
  evict tmin (t_hist h ++ [now])
        (sp_height_hist h ++ [height_setpoint s])
        (meas_height_hist h ++ [height_measured s])
        (duty_pct_hist h ++ [duty_pct])
        (valve_pct_hist h ++ [valve_pct]).

Definition _handle_frame (now : Q) (frame : list byte) (a : BolaNoTuboApp)
  : res BolaNoTuboApp :=
  match decode_frame frame with
  | None => Ret a
  | Some s =>
      let a := set_rx_vars s a in
      h <- push_history now (window_seconds a) s (hist a) ;;
      Ret (with_hist h a)
  end.

(** ** Commands *)

(** [_send_current_command] from the mode index to the packed payload. *)
Definition build_command (mode_idx height valve_pct duty_pct : Z) : res (list byte) :=
  let mode_idx := if mode_idx <? 0 then 0 else mode_idx in
  let sp_h := clamp height 0 500 in
  let sp_v_pct := clamp valve_pct 0 100 in
  let sp_d_pct := clamp duty_pct 0 100 in
  sp_v <- scale_pct sp_v_pct MAX_VALVE_STEPS ;;
  sp_d <- scale_pct sp_d_pct MAX_DUTY_RAW ;;
  struct_pack TX_FORMAT [mode_idx; sp_h; sp_v; sp_d].

Definition _send (write_fault : bool) (payload : list byte) (a : BolaNoTuboApp)
  : BolaNoTuboApp :=
  match ser (conn a) with
  | None => show_dialog WarnNotConnected a
  | Some s =>
      if negb (is_open s) then show_dialog WarnNotConnected a
      else if negb (Nat.eqb (length payload) BYTES_PER_FRAME_TX)
      then show_dialog ErrTxFrameSize a
      else
        match serial_write write_fault payload s with
        | Ret s' => set_status (StatusSent payload) (set_ser (Some s') a)
        | Raise _ => show_dialog ErrTx a
        end
  end.

Definition _send_current_command (write_fault : bool) (a : BolaNoTuboApp) : res BolaNoTuboApp :=
  h <- intvar_get (sp_height_var (entries a)) ;;
  v <- intvar_get (sp_valve_var (entries a)) ;;
  d <- intvar_get (sp_duty_var (entries a)) ;;
  payload <- build_command (mode_combo (entries a)) h v d ;;
  Ret (_send write_fault payload a).

Definition _send_reset (write_fault : bool) (a : BolaNoTuboApp) : res BolaNoTuboApp :=
  payload <- struct_pack TX_FORMAT [3; 0; 0; 0] ;;
  Ret (_send write_fault payload a).

(** ** Plot window and plot data *)

Definition _apply_window_seconds (a : BolaNoTuboApp) : BolaNoTuboApp :=
  match intvar_get (window_seconds_var (entries a)) with
  | Ret val =>
      let val := if val <? 5 then 5 else val in
      let val := if 600 <? val then 600 else val in
      with_window_seconds val a
  | Raise _ => a
  end.

(** What [_update_plots] hands to the four lines: the common time axis and
    one series each; nothing when the history is empty. *)
Record plot_data : Type := {
  x_axis : list Q;
  line1_sp : list Z;
  line1_h : list Z;
  line2_duty : list float;
  line2_valve : list float
}.

Definition _update_plots (a : BolaNoTuboApp) : option plot_data :=
  match t_hist (hist a) with
  | [] => None
  | t0 :: _ =>
      Some {| x_axis := map (fun t => (t - t0)%Q) (t_hist (hist a));
              line1_sp := sp_height_hist (hist a);
              line1_h := meas_height_hist (hist a);
              line2_duty := duty_pct_hist (hist a);
              line2_valve := valve_pct_hist (hist a) |}
  end.

(** ** The application as a transition system *)

Inductive action : Type :=
| Frame (now : Q) (frame : list byte)      (* the reader thread handles a frame *)
| Edit (e : inputs)                        (* the operator changes an entry *)
| ToggleConnection (thread_alive fault : bool)
| SendCommand (write_fault : bool)
| SendReset (write_fault : bool)
| ApplyWindow
| CloseWindow (thread_alive fault : bool)
| ReaderFault (thread_alive fault : bool). (* the reader loop leaves through except *)

(** A callback of the main loop that raises is reported by Tk and leaves
    the main loop running. *)
Definition callback (a : BolaNoTuboApp) (m : res BolaNoTuboApp) : res BolaNoTuboApp :=
  try_except m (fun _ => Ret a).

Definition step (a : BolaNoTuboApp) (act : action) : res BolaNoTuboApp :=
  match act with
  | Frame now frame => _handle_frame now frame a
  | Edit e => Ret (with_entries e a)
  | ToggleConnection alive fault => callback a (_toggle_connection alive fault a)
  | SendCommand fault => callback a (_send_current_command fault a)
  | SendReset fault => callback a (_send_reset fault a)
  | ApplyWindow => Ret (_apply_window_seconds a)
  | CloseWindow alive fault => callback a (_disconnect alive fault a)
  | ReaderFault alive fault =>
      callback a (_disconnect alive fault (set_status StatusReadError a))
  end.

Fixpoint run (acts : list action) (a : BolaNoTuboApp) : res BolaNoTuboApp :=
  match acts with
  | [] => Ret a
  | act :: rest => a' <- step a act ;; run rest a'
  end.

(** ** The reader thread beside the main loop *)
















(** ** The limits of the time axis and the port list *)

(** [max] of two numbers: the first unless the second is greater; and
    [max(x)] of a list whose first item is [x0]. *)
Definition py_max (x y : Q) : Q := if Qltb x y then y else x.
Definition py_max_list (x0 : Q) (xs : list Q) : Q := fold_left py_max xs x0.

(** The upper limit [_update_plots] sets on the time axis,
    [max(5, max(x))]; the limits are left alone when [x] is empty. *)
Definition xlim_upper (p : plot_data) : option Q :=
  match x_axis p with
  | [] => None
  | x0 :: xs => Some (py_max 5 (py_max_list x0 xs))
  end.

(** [_refresh_ports], with [ports] what [list_serial_ports()] returns: the
    list offered becomes [ports]; when nothing is selected and there is a
    port, the first one is selected. *)
Definition _refresh_ports (ports : list string) (a : BolaNoTuboApp) : BolaNoTuboApp :=
  match port_combo (entries a), ports with
  | EmptyString, p :: _ =>
      with_entries {| port_combo := p;
                      mode_combo := mode_combo (entries a);
                      sp_height_var := sp_height_var (entries a);
                      sp_valve_var := sp_valve_var (entries a);
                      sp_duty_var := sp_duty_var (entries a);
                      window_seconds_var := window_seconds_var (entries a) |} a
  | _, _ => a
  end.

(** * Vocabulary of the statements *)

(** ** The framer *)

(** What the loop observes, one item per clock reading it compares: a byte
    with its reading, or an empty read with the reading that followed it. *)
Inductive obs : Type :=
| Byte (b : byte) (t : Q)
| Idle (now : Q).

Definition observe (r : reader) (o : obs) : reader :=
  match o with
  | Byte b t => on_byte r (b, t)
  | Idle now => on_idle now r
  end.

Definition bytes_obs (g : list (byte * Q)) : list obs :=
  map (fun bt => Byte (fst bt) (snd bt)) g.
Definition idle_obs (ticks : list Q) : list obs := map Idle ticks.

(** The observations of a sequence of reads, up to the first fault. *)
Fixpoint timeline (reads : list read_outcome) : list obs :=
  match reads with
  | [] => []
  | ReadOk [] now :: rest => Idle now :: timeline rest
  | ReadOk chunk _ :: rest => bytes_obs chunk ++ timeline rest
  | ReadFault :: _ => []
  end.

(** The reading of the last byte of a group that follows [last]. *)
Fixpoint last_from (last : option Q) (g : list (byte * Q)) : option Q :=
  match g with
  | [] => last
  | (_, t) :: g' => last_from (Some t) g'
  end.

Definition first_t (g : list (byte * Q)) : option Q :=
  match g with
  | [] => None
  | (_, t) :: _ => Some t
  end.

Definition last_t (g : list (byte * Q)) : option Q := last_from None g.

(** [t] comes no later than the gap threshold after [last]. *)
Definition within_gap (last : option Q) (t : Q) : Prop :=
  match last with
  | Some l => (t - l <= FRAME_GAP_S)%Q
  | None => True
  end.

(** [t] comes later than the gap threshold after [last]. *)
Definition gap_after (last : option Q) (t : Q) : Prop :=
  match last with
  | Some l => (FRAME_GAP_S < t - l)%Q
  | None => False
  end.

(** A group: every byte within the gap threshold of the one before. *)
Fixpoint burst_from (last : option Q) (g : list (byte * Q)) : Prop :=
  match g with
  | [] => True
  | (_, t) :: g' => within_gap last t /\ burst_from (Some t) g'
  end.

Definition burst (g : list (byte * Q)) : Prop := burst_from None g.

(** The first byte of [g2] comes more than the threshold after the last
    byte of [g1]. *)
Definition gap_between (g1 g2 : list (byte * Q)) : Prop :=
  match first_t g2 with
  | Some t => gap_after (last_t g1) t
  | None => False
  end.

(** The reader after the finalisation of an idle round. *)
Definition flushed (r : reader) : reader :=
  {| buffer := []; last_byte_t := None; handled := handled (finalize r) |}.

(** Bytes read in one round, all with the reading [t]. *)
Definition stamped (t : Q) (bs : list byte) : list (byte * Q) :=
  map (fun b => (b, t)) bs.

Definition sample_frame : list byte :=
  [x01; x00; xfa; x00; xf5; x12; x34; x00; xfd; x00; xd2; x00; xd0; x01; x52].
Definition other_frame : list byte :=
  [x02; x01; x2c; x01; x2a; x12; x30; x01; x01; x00; x69; x00; x69; x02; x00].
Definition stray_bytes : list byte := [xaa; xbb; xcc].

(** ** Rounding *)

(** Rounding of the rational [n / d], [0 < d], to an integer [r]: [r] is a
    nearest integer; on a tie the even one (half-even), or the one away
    from zero (half-away). *)
Definition nearest_to (n d r : Z) : Prop := 2 * Z.abs (d * r - n) <= d.
Definition rounds_half_even (n d r : Z) : Prop :=
  nearest_to n d r /\ (2 * Z.abs (d * r - n) = d -> Z.even r = true).
Definition rounds_half_away (n d r : Z) : Prop :=
  nearest_to n d r /\ (2 * Z.abs (d * r - n) = d -> Z.abs n < Z.abs (d * r)).

(** The binary64 computation run on each of the 101 percentages of a
    scale, and the test that an entry is an exact rounding within the
    scale. *)
Definition scale_table (max_raw : Z) : list (Z * res Z) :=
  map (fun n => (Z.of_nat n, scale_pct (Z.of_nat n) max_raw)) (seq 0 101).

Definition scale_entry_ok (max_raw : Z) (e : Z * res Z) : bool :=
  match snd e with
  | Ret r =>
      let n := fst e * max_raw in
      let err := 2 * Z.abs (100 * r - n) in
      (err <=? 100)
      && (if err =? 100 then Z.even r && (Z.abs n <? Z.abs (100 * r)) else true)
      && (0 <=? r) && (r <=? max_raw) && (r =? (n + 50) / 100)
  | Raise _ => false
  end.

(** ** Sending and the connection *)

(** The send validation as the specification words it: a payload of a
    wrong size is answered by the size error in every connection state. *)
Definition wrong_size_always_reported : Prop :=
  forall (fault : bool) (payload : list byte) (a : BolaNoTuboApp),
    length payload <> BYTES_PER_FRAME_TX ->
    _send fault payload a = show_dialog ErrTxFrameSize a.

(** A port opened on the device the operator selected. *)
Definition connected_example : BolaNoTuboApp :=
  _connect false
    (with_entries {| port_combo := "COM3"; mode_combo := 0; sp_height_var := Some 0;
                     sp_valve_var := Some 0; sp_duty_var := Some 0;
                     window_seconds_var := Some 60 |} init_app).


Definition torn_down (a : BolaNoTuboApp) : BolaNoTuboApp :=
  set_status StatusDisconnected
    (set_connect_btn BtnConnect (set_ser None (set_reader_alive false a))).


(** What an action other than a frame can do to the application. *)
Inductive callback_effect (a : BolaNoTuboApp) : BolaNoTuboApp -> Prop :=
| effect_none : callback_effect a a
| effect_edit (e : inputs) : callback_effect a (with_entries e a)
| effect_connect (fault : bool) :
    connected a = false -> callback_effect a (_connect fault a)
| effect_disconnect : callback_effect a (torn_down a)
| effect_send (fault : bool) (payload : list byte) :
    callback_effect a (_send fault payload a)
| effect_window : callback_effect a (_apply_window_seconds a).

(** ** The plot history *)

(** The four series have as many points as the time axis. *)
Definition aligned (h : history) : Prop :=
  length (sp_height_hist h) = length (t_hist h)
  /\ length (meas_height_hist h) = length (t_hist h)
  /\ length (duty_pct_hist h) = length (t_hist h)
  /\ length (valve_pct_hist h) = length (t_hist h).

(** The history with its [k] oldest points removed from every deque. *)
Definition drop_oldest (k : nat) (h : history) : history :=
  {| t_hist := skipn k (t_hist h);
     sp_height_hist := skipn k (sp_height_hist h);
     meas_height_hist := skipn k (meas_height_hist h);
     duty_pct_hist := skipn k (duty_pct_hist h);
     valve_pct_hist := skipn k (valve_pct_hist h) |}.

(** The history with one point appended to every deque. *)
Definition appended (now : Q) (s : sample) (h : history) : history :=
  {| t_hist := t_hist h ++ [now];
     sp_height_hist := sp_height_hist h ++ [height_setpoint s];
     meas_height_hist := meas_height_hist h ++ [height_measured s];
     duty_pct_hist := duty_pct_hist h ++ [raw_to_pct (fan_duty s) MAX_DUTY_RAW];
     valve_pct_hist := valve_pct_hist h ++ [raw_to_pct (valve_position s) MAX_VALVE_STEPS] |}.

(** The clock readings of the frames handled, in order. *)
Definition frame_times (acts : list action) : list Q :=
  flat_map (fun act => match act with Frame now _ => [now] | _ => [] end) acts.

(** The wall clock never runs backwards between two frames. *)
Definition chronological (acts : list action) : Prop :=
  StronglySorted Qle (frame_times acts).

(** The window length in force is the default or a clamped entry. *)
Definition window_in_range (a : BolaNoTuboApp) : Prop :=
  5 <= window_seconds a <= 600.

(** A frame of fifteen zero bytes, and one frame handled at each reading. *)
Definition zero_frame : list byte := repeat x00 15.
Definition frames_at (times : list Z) : list action :=
  map (fun t => Frame (inject_Z t) zero_frame) times.






(** ** Further statements *)

(** Groups that follow a group [prev], each with the idle rounds before
    it: every group is a burst and starts more than the threshold after
    the group before. *)
Fixpoint separated (prev : list (byte * Q)) (rest : list (list Q * list (byte * Q)))
  : Prop :=
  match rest with
  | [] => True
  | (_, g) :: rest' => burst g /\ gap_between prev g /\ separated g rest'
  end.

Definition groups_timeline (g1 : list (byte * Q))
           (rest : list (list Q * list (byte * Q))) : list obs :=
  bytes_obs g1 ++ flat_map (fun ig => idle_obs (fst ig) ++ bytes_obs (snd ig)) rest.

(** The groups that are frames, as byte strings. *)
Definition frames_among (gs : list (list (byte * Q))) : list (list byte) :=
  map (map fst) (filter (fun g => Nat.eqb (length g) 15) gs).

(** The eight fields of a sample in the order of the wire. *)
Definition fields (s : sample) : list Z :=
  [mode s; height_setpoint s; height_measured s; flight_time_avg s;
   temperature s; valve_setpoint s; valve_position s; fan_duty s].

(** The slice [frame[i:i+2]]. *)
Definition slice2 (i : nat) (frame : list byte) : list byte := firstn 2 (skipn i frame).

(** ** The plot *)

(** A percentage within the limits [set_ylim(0, 100)] of the lower plot. *)
Definition within_axis (x : float) : bool :=
  PrimFloat.leb 0%float x && PrimFloat.leb x 100%float.

(** The test that a percentage is within the axis exactly when the raw
    value is within the scale, run on the raw values [0, 1, ..., count - 1]
    of a scale. *)
Definition pct_entry_ok (max_raw raw : Z) : bool :=
  Bool.eqb (within_axis (raw_to_pct raw max_raw)) (raw <=? max_raw).

Definition pct_range_ok (max_raw : Z) (count : N) : bool :=
  snd (N.iter count
         (fun st : Z * bool => (fst st + 1, snd st && pct_entry_ok max_raw (fst st)))
         (0, true)).

(** ** The session over any run *)

(** What a callback of the main loop does to the application, a command
    being sent with the payload it was built with. *)
Inductive main_loop_effect (a : BolaNoTuboApp) : BolaNoTuboApp -> Prop :=
| ml_none : main_loop_effect a a
| ml_edit (e : inputs) : main_loop_effect a (with_entries e a)
| ml_connect (fault : bool) :
    connected a = false -> main_loop_effect a (_connect fault a)
| ml_disconnect : main_loop_effect a (torn_down a)
| ml_command (fault : bool) (h v d : Z) (payload : list byte) :
    build_command (mode_combo (entries a)) h v d = Ret payload ->
    main_loop_effect a (_send fault payload a)
| ml_reset (fault : bool) :
    main_loop_effect a (_send fault [x03; x00; x00; x00; x00; x00; x00] a)
| ml_window : main_loop_effect a (_apply_window_seconds a).


(** A payload the controller accepts: seven bytes that unpack to a mode
    byte, a height of at most 500 mm, at most 420 valve steps and a duty of
    at most 1023 counts. *)
Definition command_in_range (payload : list byte) : Prop :=
  length payload = 7%nat
  /\ exists m h v d : Z,
       struct_unpack TX_FORMAT payload = Ret [m; h; v; d]
       /\ 0 <= m <= 255 /\ 0 <= h <= 500 /\ 0 <= v <= 420 /\ 0 <= d <= 1023.

(** Everything written to the attached port is such a payload, and the
    size error of [_send] has not been shown. *)
Definition port_log_in_range (a : BolaNoTuboApp) : Prop :=
  match ser (conn a) with
  | Some s => Forall command_in_range (written s)
  | None => True
  end.

Definition no_size_error (a : BolaNoTuboApp) : Prop :=
  ~ In ErrTxFrameSize (dialogs (ui a)).

(** A session: a port chosen, the connection opened, a command and a reset
    sent. *)
Definition session_example : list action :=
  [Edit {| port_combo := "COM3"; mode_combo := 2; sp_height_var := Some 250;
           sp_valve_var := Some 50; sp_duty_var := Some 33;
           window_seconds_var := Some 60 |};
   ToggleConnection false false;
   SendCommand false;
   SendReset false].

(** ** Proof automation *)

(** Closes a goal [exists a', m = Ret a' /\ callback_effect a a'] once [m]
    has been computed. *)
Ltac effect_found := eexists; split; [reflexivity | constructor; try assumption].

(** * Proofs *)

(** ** Bytes and big-endian fields *)

Lemma byte_val_range (b : byte) : 0 <= byte_val b <= 255.
Proof.
  unfold byte_val. pose proof (Byte.to_N_bounded b) as Hb. lia.
Qed.

Lemma byte_of_val (b : byte) : byte_of (byte_val b) = b.
Proof.
  unfold byte_of, byte_val. rewrite N2Z.id, Byte.of_to_N. reflexivity.
Qed.

Lemma byte_val_of (z : Z) : 0 <= z <= 255 -> byte_val (byte_of z) = z.
Proof.
  intros Hz. unfold byte_of, byte_val.
  destruct (Byte.of_N (Z.to_N z)) as [b|] eqn:E.
  - apply Byte.to_of_N in E. rewrite E. lia.
  - apply Byte.of_N_None_iff in E. lia.
Qed.

(** The high byte shifted left by eight shares no bit with the low byte. *)
Lemma be16_disjoint (hi lo : Z) :
  0 <= lo <= 255 -> Z.land (Z.shiftl hi 8) lo = 0.
Proof.
  intros Hlo. apply Z.bits_inj'. intros n Hn.
  rewrite Z.land_spec, Z.bits_0, Z.shiftl_spec by lia.
  destruct (Z.ltb_spec n 8) as [Hlt|Hge].
  - rewrite (Z.testbit_neg_r hi) by lia. reflexivity.
  - rewrite (Z.bits_above_log2 lo n), andb_false_r; [reflexivity|lia|].
    destruct (Z.eq_dec lo 0) as [->|Hnz]; [simpl; lia|].
    apply Z.log2_lt_pow2; [lia|].
    apply Z.le_lt_trans with 255; [lia|].
    apply Z.lt_le_trans with (2 ^ 8); [reflexivity|].
    apply Z.pow_le_mono_r; lia.
Qed.

Lemma be16_value (hi lo : Z) :
  0 <= lo <= 255 -> Z.lor (Z.shiftl hi 8) lo = 256 * hi + lo.
Proof.
  intros Hlo.
  rewrite <- Z.lxor_lor, <- Z.add_nocarry_lxor by (apply be16_disjoint; exact Hlo).
  rewrite Z.shiftl_mul_pow2 by lia. change (2 ^ 8) with 256. lia.
Qed.

Lemma unpack_H_bytes (hi lo : byte) (rest : list byte) :
  unpack_field fmt_H (hi :: lo :: rest) = 256 * byte_val hi + byte_val lo.
Proof.
  cbn [unpack_field nth]. apply be16_value, byte_val_range.
Qed.

Lemma pack_H_bytes (v : Z) :
  pack_field fmt_H v = [byte_of (v / 256); byte_of (v mod 256)].
Proof.
  cbn [pack_field].
  rewrite Z.shiftr_div_pow2 by lia.
  change 255 with (Z.ones 8). rewrite Z.land_ones by lia.
  reflexivity.
Qed.

Lemma unpack_pack_field (c : fmt_code) (v : Z) (rest : list byte) :
  0 <= v <= code_max c ->
  unpack_field c (pack_field c v ++ rest) = v
  /\ skipn (code_size c) (pack_field c v ++ rest) = rest.
Proof.
  intros Hv. destruct c.
  - cbn [pack_field List.app unpack_field nth code_size skipn code_max] in *.
    split; [apply byte_val_of; exact Hv | reflexivity].
  - rewrite pack_H_bytes. cbn [app code_size skipn code_max] in *.
    rewrite unpack_H_bytes. split; [|reflexivity].
    assert (0 <= v / 256 < 256)
      by (split; [apply Z.div_pos; lia | apply Z.div_lt_upper_bound; lia]).
    pose proof (Z.mod_pos_bound v 256 ltac:(lia)) as Hm.
    rewrite !byte_val_of by lia.
    pose proof (Z.div_mod v 256 ltac:(lia)). lia.
Qed.

Lemma struct_pack_inv (c : fmt_code) (fmt : list fmt_code) (v : Z)
      (vals : list Z) (bs : list byte) :
  struct_pack (c :: fmt) (v :: vals) = Ret bs ->
  0 <= v <= code_max c
  /\ exists rest, struct_pack fmt vals = Ret rest /\ bs = pack_field c v ++ rest.
Proof.
  cbn [struct_pack]. intros Hp.
  destruct ((0 <=? v) && (v <=? code_max c)) eqn:Hr; [|discriminate].
  apply andb_true_iff in Hr. destruct Hr as [H0 H1].
  apply Z.leb_le in H0. apply Z.leb_le in H1.
  destruct (struct_pack fmt vals) as [rest|e]; [|discriminate].
  cbn [bind] in Hp. inversion Hp; subst.
  split; [lia | exists rest; split; reflexivity].
Qed.

Lemma struct_pack_length (fmt : list fmt_code) :
  forall vals bs, struct_pack fmt vals = Ret bs -> length bs = calcsize fmt.
Proof.
  induction fmt as [|c fmt IH]; intros [|v vals] bs Hp; try discriminate.
  - inversion Hp. reflexivity.
  - apply struct_pack_inv in Hp. destruct Hp as [_ (rest & Hrest & ->)].
    rewrite length_app, (IH _ _ Hrest). cbn [calcsize].
    destruct c; reflexivity.
Qed.

Lemma read_fields_pack (fmt : list fmt_code) :
  forall vals bs, struct_pack fmt vals = Ret bs -> read_fields fmt bs = vals.
Proof.
  induction fmt as [|c fmt IH]; intros [|v vals] bs Hp; try discriminate.
  - reflexivity.
  - apply struct_pack_inv in Hp. destruct Hp as [Hv (rest & Hrest & ->)].
    cbn [read_fields].
    destruct (unpack_pack_field c v rest Hv) as [-> ->].
    rewrite (IH _ _ Hrest). reflexivity.
Qed.

(** Unpacking what was packed gives the values back. *)
Lemma struct_unpack_pack (fmt : list fmt_code) (vals : list Z) (bs : list byte) :
  struct_pack fmt vals = Ret bs -> struct_unpack fmt bs = Ret vals.
Proof.
  intros Hp. unfold struct_unpack.
  rewrite (struct_pack_length _ _ _ Hp), Nat.eqb_refl, (read_fields_pack _ _ _ Hp).
  reflexivity.
Qed.

Lemma struct_unpack_length (fmt : list fmt_code) (bs : list byte) (vals : list Z) :
  struct_unpack fmt bs = Ret vals -> length bs = calcsize fmt.
Proof.
  unfold struct_unpack.
  destruct (Nat.eqb_spec (length bs) (calcsize fmt)); [trivial | discriminate].
Qed.

Lemma struct_pack_cons (c : fmt_code) (fmt : list fmt_code) (v : Z) (vals : list Z) :
  0 <= v <= code_max c ->
  struct_pack (c :: fmt) (v :: vals) =
  (rest <- struct_pack fmt vals ;; Ret (pack_field c v ++ rest)).
Proof.
  intros Hv. cbn [struct_pack].
  replace ((0 <=? v) && (v <=? code_max c)) with true; [reflexivity|].
  symmetry. apply andb_true_intro. split; apply Z.leb_le; lia.
Qed.

(** Values that fit their format characters are packed without error. *)
Lemma struct_pack_fits (fmt : list fmt_code) (vals : list Z) :
  Forall2 (fun c v => 0 <= v <= code_max c) fmt vals ->
  exists bs, struct_pack fmt vals = Ret bs.
Proof.
  induction 1 as [|c v fmt vals Hv _ [bs IH]].
  - exists []. reflexivity.
  - exists (pack_field c v ++ bs).
    rewrite struct_pack_cons by exact Hv. rewrite IH. reflexivity.
Qed.

(** ** The framer *)

Lemma gap_elapsed_within (last : option Q) (t : Q) :
  within_gap last t -> gap_elapsed last t = false.
Proof.
  destruct last as [l|]; [|reflexivity]. cbn [within_gap gap_elapsed].
  intros Hle. unfold Qgtb. apply Qle_bool_iff in Hle. rewrite Hle. reflexivity.
Qed.

Lemma gap_elapsed_after (last : option Q) (t : Q) :
  gap_after last t -> gap_elapsed last t = true.
Proof.
  destruct last as [l|]; [|intros []]. cbn [gap_after gap_elapsed].
  intros Hlt. unfold Qgtb.
  destruct (Qle_bool (t - l) FRAME_GAP_S) eqn:Hle; [|reflexivity].
  apply Qle_bool_iff in Hle. exfalso. exact (Qlt_not_le _ _ Hlt Hle).
Qed.

(** The reads matter only through their observations. *)
Lemma loop_body_observe (chunk : list (byte * Q)) (now : Q) (r : reader) :
  loop_body chunk now r = fold_left observe (timeline [ReadOk chunk now]) r.
Proof.
  destruct chunk as [|bt chunk]; [reflexivity|].
  cbn [timeline]. rewrite app_nil_r. unfold loop_body, bytes_obs.
  generalize (bt :: chunk) as g. intros g. revert r.
  induction g as [|[b t] g IH]; intros r; [reflexivity|].
  cbn [fold_left map observe fst snd]. apply IH.
Qed.

Lemma timeline_cons_ok (chunk : list (byte * Q)) (now : Q) (rest : list read_outcome) :
  timeline (ReadOk chunk now :: rest) = timeline [ReadOk chunk now] ++ timeline rest.
Proof.
  destruct chunk as [|bt chunk]; cbn [timeline]; [reflexivity|].
  rewrite app_nil_r. reflexivity.
Qed.

Lemma reader_rounds_timeline (reads : list read_outcome) :
  forall r, fst (reader_rounds reads r) = fold_left observe (timeline reads) r.
Proof.
  induction reads as [|[chunk now|] rest IH]; intros r; [reflexivity| |reflexivity].
  cbn [reader_rounds]. rewrite IH, timeline_cons_ok, fold_left_app, loop_body_observe.
  reflexivity.
Qed.

Lemma emitted_timeline (reads : list read_outcome) :
  emitted reads = handled (fold_left observe (timeline reads) reader_start).
Proof.
  unfold emitted, _reader_loop. rewrite reader_rounds_timeline. reflexivity.
Qed.

Lemma fold_bytes_obs (g : list (byte * Q)) :
  forall r, fold_left observe (bytes_obs g) r = fold_left on_byte g r.
Proof.
  unfold bytes_obs. induction g as [|[b t] g IH]; intros r; [reflexivity|].
  cbn [fold_left map observe fst snd]. apply IH.
Qed.

(** A burst that continues the pending bytes is appended to them. *)
Lemma burst_absorbed (g : list (byte * Q)) :
  forall r, burst_from (last_byte_t r) g ->
    fold_left on_byte g r =
    {| buffer := buffer r ++ map fst g;
       last_byte_t := last_from (last_byte_t r) g;
       handled := handled r |}.
Proof.
  induction g as [|[b t] g IH]; intros r Hb.
  - cbn. rewrite app_nil_r. destruct r; reflexivity.
  - destruct Hb as [Hw Hb]. cbn [fold_left].
    unfold on_byte at 2. rewrite (gap_elapsed_within _ _ Hw).
    rewrite IH by exact Hb. cbn [buffer last_byte_t handled map fst last_from].
    rewrite <- app_assoc. reflexivity.
Qed.

Lemma idle_without_last (ticks : list Q) :
  forall r, last_byte_t r = None ->
    fold_left observe (idle_obs ticks) r = r.
Proof.
  induction ticks as [|now ticks IH]; intros r Hr; [reflexivity|].
  cbn [idle_obs map fold_left observe]. unfold on_idle. rewrite Hr.
  cbn [gap_elapsed andb]. apply IH. exact Hr.
Qed.

(** Idle rounds leave the reader as it is or flush it. *)
Lemma idle_rounds (ticks : list Q) :
  forall r, fold_left observe (idle_obs ticks) r = r
            \/ (buffer r <> [] /\ fold_left observe (idle_obs ticks) r = flushed r).
Proof.
  induction ticks as [|now ticks IH]; intros r; [left; reflexivity|].
  cbn [idle_obs map fold_left observe]. unfold on_idle.
  destruct (gap_elapsed (last_byte_t r) now && negb (Nat.eqb (length (buffer r)) 0))
    eqn:Hc.
  - right. apply andb_true_iff in Hc. destruct Hc as [_ Hne].
    split; [intros Hnil; rewrite Hnil in Hne; discriminate Hne|].
    apply idle_without_last. reflexivity.
  - apply IH.
Qed.

(** The first byte after a gap starts a new buffer; the pending one is
    handled first if it holds one frame.  Idle rounds in between do not
    change that. *)
Lemma byte_after_gap (ticks : list Q) (r : reader) (b : byte) (t : Q) :
  gap_after (last_byte_t r) t ->
  on_byte (fold_left observe (idle_obs ticks) r) (b, t) =
  {| buffer := [b]; last_byte_t := Some t; handled := handled (finalize r) |}.
Proof.
  intros Hgap. destruct (idle_rounds ticks r) as [-> | [Hne ->]].
  - unfold on_byte. rewrite (gap_elapsed_after _ _ Hgap). reflexivity.
  - reflexivity.
Qed.

(** A group that arrives after a gap replaces the pending bytes. *)
Lemma group_after_gap (ticks : list Q) (r : reader) (g : list (byte * Q)) :
  burst g ->
  match first_t g with Some t => gap_after (last_byte_t r) t | None => False end ->
  fold_left observe (idle_obs ticks ++ bytes_obs g) r =
  {| buffer := map fst g; last_byte_t := last_t g; handled := handled (finalize r) |}.
Proof.
  destruct g as [|[b t] g]; [intros _ []|]. cbn [first_t].
  intros [_ Hb] Hgap. rewrite fold_left_app, fold_bytes_obs. cbn [fold_left].
  rewrite (byte_after_gap ticks r b t Hgap).
  rewrite burst_absorbed by exact Hb. reflexivity.
Qed.

(** An idle round after a gap flushes the pending bytes, whatever idle
    rounds came before. *)
Lemma idle_after_gap (ticks : list Q) (r : reader) (now : Q) :
  buffer r <> [] ->
  gap_after (last_byte_t r) now ->
  fold_left observe (idle_obs ticks ++ [Idle now]) r = flushed r.
Proof.
  intros Hne Hgap. rewrite fold_left_app. cbn [fold_left observe].
  destruct (idle_rounds ticks r) as [-> | [_ ->]].
  - unfold on_idle. rewrite (gap_elapsed_after _ _ Hgap).
    destruct (buffer r) as [|x l] eqn:Hb; [elim Hne; reflexivity|].
    cbn [length Nat.eqb negb andb]. unfold flushed, finalize. rewrite Hb. reflexivity.
  - reflexivity.
Qed.

Lemma finalize_frame (r : reader) :
  length (buffer r) = 15%nat -> handled (finalize r) = handled r ++ [buffer r].
Proof.
  intros Hl. unfold finalize, BYTES_PER_FRAME_RX. rewrite Hl. reflexivity.
Qed.

Lemma finalize_malformed (r : reader) :
  length (buffer r) <> 15%nat -> handled (finalize r) = handled r.
Proof.
  intros Hl. unfold finalize, BYTES_PER_FRAME_RX.
  apply Nat.eqb_neq in Hl. rewrite Hl. reflexivity.
Qed.

(** The first group of a stream is pending after its last byte. *)
Lemma first_group (g : list (byte * Q)) :
  burst g ->
  fold_left observe (bytes_obs g) reader_start =
  {| buffer := map fst g; last_byte_t := last_t g; handled := [] |}.
Proof.
  intros Hb. rewrite fold_bytes_obs. rewrite burst_absorbed by exact Hb. reflexivity.
Qed.

(** One frame, however the reads cut it, followed by an idle round after
    the gap: the frame is handled, once. *)
Lemma one_frame (reads : list read_outcome) (f : list (byte * Q)) (now : Q) :
  timeline reads = bytes_obs f ++ [Idle now] ->
  length f = 15%nat -> burst f -> gap_after (last_t f) now ->
  emitted reads = [map fst f].
Proof.
  intros Htl Hlen Hb Hgap. rewrite emitted_timeline, Htl, fold_left_app.
  rewrite (first_group f Hb).
  rewrite (idle_after_gap [] _ now).
  - unfold flushed. cbn [handled]. rewrite finalize_frame; [reflexivity|].
    cbn [buffer]. rewrite length_map. exact Hlen.
  - cbn [buffer]. destruct f; [discriminate Hlen | discriminate].
  - exact Hgap.
Qed.

(** Three groups separated by gaps, with any idle rounds in the gaps: the
    first, a frame, has been handled, the second dropped, the third is
    pending. *)
Lemma three_groups (g1 g2 g3 : list (byte * Q)) (idle1 idle2 : list Q) :
  length g1 = 15%nat -> length g2 = 3%nat ->
  burst g1 -> burst g2 -> burst g3 ->
  gap_between g1 g2 -> gap_between g2 g3 ->
  fold_left observe
    (bytes_obs g1 ++ idle_obs idle1 ++ bytes_obs g2 ++ idle_obs idle2 ++ bytes_obs g3)
    reader_start =
  {| buffer := map fst g3; last_byte_t := last_t g3; handled := [map fst g1] |}.
Proof.
  intros Hl1 Hl2 Hb1 Hb2 Hb3 Hg12 Hg23.
  rewrite fold_left_app, (first_group g1 Hb1).
  rewrite (app_assoc (idle_obs idle1)), fold_left_app.
  rewrite (group_after_gap idle1 _ g2 Hb2) by exact Hg12.
  rewrite finalize_frame by (cbn [buffer]; rewrite length_map; exact Hl1).
  rewrite (group_after_gap idle2 _ g3 Hb3) by exact Hg23.
  rewrite finalize_malformed by (cbn [buffer]; rewrite length_map, Hl2; discriminate).
  reflexivity.
Qed.

(** C1. Framer resynchronisation.  A group of 15 bytes, a gap longer than
    the threshold, a group of 3 bytes, another such gap, a group of 15
    bytes: however the reads cut the groups and whatever idle rounds fall
    into the gaps, once the gap after the third group has been observed
    the loop has handed exactly the first and the third group to
    [_handle_frame], in this order; the 3-byte group is never handed over;
    and before that last gap is observed only the first group has been. *)
Theorem framer_resynchronizes :
  forall (g1 g2 g3 : list (byte * Q)) (idle1 idle2 idle3 : list Q) (now : Q),
    length g1 = 15%nat -> length g2 = 3%nat -> length g3 = 15%nat ->
    burst g1 -> burst g2 -> burst g3 ->
    gap_between g1 g2 -> gap_between g2 g3 -> gap_after (last_t g3) now ->
    (forall reads : list read_outcome,
        timeline reads =
          bytes_obs g1 ++ idle_obs idle1 ++ bytes_obs g2 ++ idle_obs idle2
          ++ bytes_obs g3 ++ idle_obs idle3 ++ [Idle now] ->
        emitted reads = [map fst g1; map fst g3])
    /\ (forall reads : list read_outcome,
           timeline reads =
             bytes_obs g1 ++ idle_obs idle1 ++ bytes_obs g2 ++ idle_obs idle2
             ++ bytes_obs g3 ->
           emitted reads = [map fst g1]
           /\ buffer (fst (_reader_loop reads)) = map fst g3).
Proof.
  intros g1 g2 g3 idle1 idle2 idle3 now Hl1 Hl2 Hl3 Hb1 Hb2 Hb3 Hg12 Hg23 Hg3.
  pose proof (three_groups g1 g2 g3 idle1 idle2 Hl1 Hl2 Hb1 Hb2 Hb3 Hg12 Hg23) as Hthree.
  split.
  - intros reads Htl. rewrite emitted_timeline, Htl.
    replace (bytes_obs g1 ++ idle_obs idle1 ++ bytes_obs g2 ++ idle_obs idle2
             ++ bytes_obs g3 ++ idle_obs idle3 ++ [Idle now])
      with ((bytes_obs g1 ++ idle_obs idle1 ++ bytes_obs g2 ++ idle_obs idle2
             ++ bytes_obs g3) ++ (idle_obs idle3 ++ [Idle now]))
      by (rewrite <- !app_assoc; reflexivity).
    rewrite fold_left_app, Hthree.
    rewrite (idle_after_gap idle3 _ now).
    + unfold flushed. cbn [handled]. rewrite finalize_frame; [reflexivity|].
      cbn [buffer]. rewrite length_map. exact Hl3.
    + cbn [buffer]. destruct g3; [discriminate Hl3 | discriminate].
    + exact Hg3.
  - intros reads Htl. unfold emitted, _reader_loop.
    rewrite reader_rounds_timeline, Htl, Hthree. split; reflexivity.
Qed.

(** A frame, 60 ms later three stray bytes, 60 ms later a frame, with the
    empty reads that fall into the gaps. *)
Lemma framer_resynchronizes_witness :
  emitted [ReadOk (stamped 0 sample_frame) 0.001;
           ReadOk [] 0.051;
           ReadOk (stamped 0.060 stray_bytes) 0.061;
           ReadOk [] 0.111;
           ReadOk (stamped 0.120 other_frame) 0.121;
           ReadOk [] 0.171]
  = [sample_frame; other_frame].
Proof.
  apply (proj1 (framer_resynchronizes
                  (stamped 0 sample_frame) (stamped 0.060 stray_bytes)
                  (stamped 0.120 other_frame) [0.051%Q] [0.111%Q] [] 0.171
                  eq_refl eq_refl eq_refl
                  ltac:(repeat split; cbv; congruence)
                  ltac:(repeat split; cbv; congruence)
                  ltac:(repeat split; cbv; congruence)
                  ltac:(cbv; reflexivity) ltac:(cbv; reflexivity)
                  ltac:(cbv; reflexivity))).
  reflexivity.
Defined.

(** C2. Framer chunk invariance.  What the loop hands to [_handle_frame]
    depends on the reads only through the sequence of bytes and clock
    readings it observes.  A 15-byte frame whose bytes follow each other
    within the threshold, followed by an idle round after the gap, is
    handed over exactly once, however the reads cut it; so it is when read
    as chunks of 1, 1 and 13 bytes, and the frame handed over is the one
    handed over when the same bytes come in a single chunk. *)
Theorem framer_chunk_invariance :
  (forall reads reads' : list read_outcome,
      timeline reads = timeline reads' -> emitted reads = emitted reads')
  /\ (forall (reads : list read_outcome) (f : list (byte * Q)) (now : Q),
         timeline reads = bytes_obs f ++ [Idle now] ->
         length f = 15%nat -> burst f -> gap_after (last_t f) now ->
         emitted reads = [map fst f])
  /\ (forall (f f' : list (byte * Q)) (n1 n2 n3 n now now' : Q),
         length f = 15%nat -> burst f -> gap_after (last_t f) now ->
         burst f' -> gap_after (last_t f') now' -> map fst f' = map fst f ->
         emitted [ReadOk (firstn 1 f) n1; ReadOk (firstn 1 (skipn 1 f)) n2;
                  ReadOk (skipn 2 f) n3; ReadOk [] now] = [map fst f]
         /\ emitted [ReadOk f' n; ReadOk [] now'] = [map fst f]).
Proof.
  split; [|split].
  - intros reads reads' Htl. rewrite !emitted_timeline, Htl. reflexivity.
  - exact one_frame.
  - intros f f' n1 n2 n3 n now now' Hlen Hb Hgap Hb' Hgap' Hbytes.
    assert (Hlen' : length f' = 15%nat).
    { rewrite <- (length_map fst f'), Hbytes, length_map. exact Hlen. }
    split.
    + apply (one_frame _ f now); try assumption.
      destruct f as [|x0 [|x1 [|x2 rest]]]; try discriminate Hlen.
      cbn [firstn skipn timeline bytes_obs map List.app]. reflexivity.
    + rewrite <- Hbytes. apply (one_frame _ f' now'); try assumption.
      destruct f' as [|x0 rest]; [discriminate Hlen'|].
      cbn [timeline]. reflexivity.
Qed.

(** Chunks of 1, 1 and 13 bytes read 30 ms apart against a single chunk. *)
Lemma framer_chunk_invariance_witness :
  emitted [ReadOk (stamped 0 (firstn 1 sample_frame)) 0.001;
           ReadOk (stamped 0.030 (firstn 1 (skipn 1 sample_frame))) 0.031;
           ReadOk (stamped 0.060 (skipn 2 sample_frame)) 0.061;
           ReadOk [] 0.111]
  = [sample_frame]
  /\ emitted [ReadOk (stamped 0 sample_frame) 0.001; ReadOk [] 0.051] = [sample_frame].
Proof.
  apply (proj2 (proj2 framer_chunk_invariance)
               (stamped 0 (firstn 1 sample_frame)
                ++ stamped 0.030 (firstn 1 (skipn 1 sample_frame))
                ++ stamped 0.060 (skipn 2 sample_frame))
               (stamped 0 sample_frame)
               0.001%Q 0.031%Q 0.061%Q 0.001%Q 0.111%Q 0.051%Q).
  - reflexivity.
  - repeat split; cbv; congruence.
  - cbv. reflexivity.
  - repeat split; cbv; congruence.
  - cbv. reflexivity.
  - reflexivity.
Defined.

(** ** Frame decoding *)

Lemma decode_frame_bytes (b0 b1 b2 b3 b4 b5 b6 b7 b8 b9 b10 b11 b12 b13 b14 : byte) :
  decode_frame [b0; b1; b2; b3; b4; b5; b6; b7; b8; b9; b10; b11; b12; b13; b14] =
  Some {| mode := byte_val b0;
          height_setpoint := 256 * byte_val b1 + byte_val b2;
          height_measured := 256 * byte_val b3 + byte_val b4;
          flight_time_avg := 256 * byte_val b5 + byte_val b6;
          temperature := 256 * byte_val b7 + byte_val b8;
          valve_setpoint := 256 * byte_val b9 + byte_val b10;
          valve_position := 256 * byte_val b11 + byte_val b12;
          fan_duty := 256 * byte_val b13 + byte_val b14 |}.
Proof.
  unfold decode_frame, struct_unpack.
  change (Nat.eqb (length [b0; b1; b2; b3; b4; b5; b6; b7; b8; b9; b10; b11; b12; b13; b14])
                  BYTES_PER_FRAME_RX) with true.
  change (Nat.eqb (length [b0; b1; b2; b3; b4; b5; b6; b7; b8; b9; b10; b11; b12; b13; b14])
                  (calcsize RX_FORMAT)) with true.
  cbn [negb RX_FORMAT read_fields code_size skipn].
  rewrite !unpack_H_bytes. reflexivity.
Qed.

Lemma decode_frame_length (frame : list byte) (s : sample) :
  decode_frame frame = Some s -> length frame = 15%nat.
Proof.
  unfold decode_frame.
  destruct (Nat.eqb_spec (length frame) BYTES_PER_FRAME_RX) as [E|E]; [|discriminate].
  intros _. exact E.
Qed.

Lemma decode_frame_some (frame : list byte) :
  length frame = 15%nat -> exists s, decode_frame frame = Some s.
Proof.
  intros Hlen.
  do 15 (destruct frame as [|? frame]; [discriminate Hlen|]).
  destruct frame; [|discriminate Hlen].
  eexists. apply decode_frame_bytes.
Qed.

Lemma decode_frame_range (frame : list byte) (s : sample) :
  decode_frame frame = Some s ->
  0 <= mode s <= 255
  /\ 0 <= height_setpoint s <= 65535 /\ 0 <= height_measured s <= 65535
  /\ 0 <= flight_time_avg s <= 65535 /\ 0 <= temperature s <= 65535
  /\ 0 <= valve_setpoint s <= 65535 /\ 0 <= valve_position s <= 65535
  /\ 0 <= fan_duty s <= 65535.
Proof.
  intros Hd. pose proof (decode_frame_length _ _ Hd) as Hlen.
  do 15 (destruct frame as [|? frame]; [discriminate Hlen|]).
  destruct frame; [|discriminate Hlen].
  rewrite decode_frame_bytes in Hd.
  match type of Hd with Some ?r = _ => assert (Hs : s = r) by congruence end.
  subst s. clear Hd Hlen.
  cbn [mode height_setpoint height_measured flight_time_avg temperature
       valve_setpoint valve_position fan_duty].
  repeat match goal with
         | b : byte |- _ =>
             pose proof (byte_val_range b);
             generalize dependent (byte_val b); clear b; intros
         end.
  lia.
Qed.

Lemma decode_frame_onto (s : sample) :
  0 <= mode s <= 255 ->
  0 <= height_setpoint s <= 65535 -> 0 <= height_measured s <= 65535 ->
  0 <= flight_time_avg s <= 65535 -> 0 <= temperature s <= 65535 ->
  0 <= valve_setpoint s <= 65535 -> 0 <= valve_position s <= 65535 ->
  0 <= fan_duty s <= 65535 ->
  exists frame, decode_frame frame = Some s.
Proof.
  intros H0 H1 H2 H3 H4 H5 H6 H7.
  destruct (struct_pack_fits RX_FORMAT
              [mode s; height_setpoint s; height_measured s; flight_time_avg s;
               temperature s; valve_setpoint s; valve_position s; fan_duty s])
    as [frame Hp].
  { unfold RX_FORMAT. repeat (apply Forall2_cons; [assumption|]). apply Forall2_nil. }
  exists frame. unfold decode_frame.
  rewrite (struct_pack_length _ _ _ Hp), (struct_unpack_pack _ _ _ Hp).
  destruct s; reflexivity.
Qed.

(** C3. Frame decoding is total on 15-byte buffers and fails exactly on the
    others.  [decode_frame] returns a sample if and only if the buffer has
    15 bytes; the sample is the unsigned byte at offset 0 followed by the
    seven unsigned 16-bit big-endian fields at offsets 1, 3, 5, 7, 9, 11
    and 13, taken as they come: every value of the wire width can appear,
    none is validated or clamped.  [_handle_frame] returns the application
    unchanged on a buffer of another length, and on a decoded buffer the
    RX readouts are the decoded fields. *)
Theorem decode_frame_exactly_15 :
  (forall frame : list byte,
      (exists s, decode_frame frame = Some s) <-> length frame = 15%nat)
  /\ (forall b0 b1 b2 b3 b4 b5 b6 b7 b8 b9 b10 b11 b12 b13 b14 : byte,
         decode_frame [b0; b1; b2; b3; b4; b5; b6; b7; b8; b9; b10; b11; b12; b13; b14] =
         Some {| mode := byte_val b0;
                 height_setpoint := 256 * byte_val b1 + byte_val b2;
                 height_measured := 256 * byte_val b3 + byte_val b4;
                 flight_time_avg := 256 * byte_val b5 + byte_val b6;
                 temperature := 256 * byte_val b7 + byte_val b8;
                 valve_setpoint := 256 * byte_val b9 + byte_val b10;
                 valve_position := 256 * byte_val b11 + byte_val b12;
                 fan_duty := 256 * byte_val b13 + byte_val b14 |})
  /\ (forall s : sample,
         (exists frame, decode_frame frame = Some s) <->
         (0 <= mode s <= 255
          /\ 0 <= height_setpoint s <= 65535 /\ 0 <= height_measured s <= 65535
          /\ 0 <= flight_time_avg s <= 65535 /\ 0 <= temperature s <= 65535
          /\ 0 <= valve_setpoint s <= 65535 /\ 0 <= valve_position s <= 65535
          /\ 0 <= fan_duty s <= 65535))
  /\ (forall (now : Q) (frame : list byte) (a : BolaNoTuboApp),
         length frame <> 15%nat -> _handle_frame now frame a = Ret a)
  /\ (forall (now : Q) (frame : list byte) (a a' : BolaNoTuboApp) (s : sample),
         decode_frame frame = Some s ->
         _handle_frame now frame a = Ret a' ->
         rx_mode (rx a') = mode s
         /\ rx_height_sp (rx a') = height_setpoint s
         /\ rx_height (rx a') = height_measured s
         /\ rx_tof (rx a') = flight_time_avg s
         /\ rx_temp_x10 (rx a') = temperature s
         /\ rx_valve_sp (rx a') = valve_setpoint s
         /\ rx_valve_pos (rx a') = valve_position s
         /\ rx_duty (rx a') = fan_duty s).
Proof.
  split; [|split; [|split; [|split]]].
  - intros frame. split.
    + intros [s Hs]. exact (decode_frame_length _ _ Hs).
    + apply decode_frame_some.
  - exact decode_frame_bytes.
  - intros s. split.
    + intros [frame Hs]. exact (decode_frame_range _ _ Hs).
    + intros (H0 & H1 & H2 & H3 & H4 & H5 & H6 & H7).
      apply decode_frame_onto; assumption.
  - intros now frame a Hlen. unfold _handle_frame.
    destruct (decode_frame frame) as [s|] eqn:Hs; [|reflexivity].
    elim Hlen. exact (decode_frame_length _ _ Hs).
  - intros now frame a a' s Hs Hh. unfold _handle_frame in Hh.
    rewrite Hs in Hh.
    destruct (push_history now (window_seconds (set_rx_vars s a)) s
                (hist (set_rx_vars s a))) as [h|e]; [|discriminate Hh].
    cbn [bind] in Hh. injection Hh as <-.
    repeat split.
Qed.

Lemma finalize_handled_15 (r : reader) :
  Forall (fun f => length f = 15%nat) (handled r) ->
  Forall (fun f => length f = 15%nat) (handled (finalize r)).
Proof.
  intros Hall. unfold finalize. cbn [handled].
  destruct (Nat.eqb_spec (length (buffer r)) BYTES_PER_FRAME_RX) as [E|E]; [|exact Hall].
  apply Forall_app. split; [exact Hall|]. constructor; [exact E | constructor].
Qed.

Lemma observe_handled_15 (o : obs) (r : reader) :
  Forall (fun f => length f = 15%nat) (handled r) ->
  Forall (fun f => length f = 15%nat) (handled (observe r o)).
Proof.
  intros Hall. destruct o as [b t | now]; cbn [observe].
  - unfold on_byte. destruct (gap_elapsed (last_byte_t r) t); cbn [handled];
      [apply finalize_handled_15|]; exact Hall.
  - unfold on_idle.
    destruct (gap_elapsed (last_byte_t r) now && negb (Nat.eqb (length (buffer r)) 0));
      cbn [handled]; [apply finalize_handled_15|]; exact Hall.
Qed.

(** X1. Whatever the reads, the loop hands only buffers of exactly 15
    bytes to [_handle_frame], each of which decodes: a group of any other
    length is dropped without being handed over. *)
Theorem emitted_frames_have_15_bytes (reads : list read_outcome) :
  Forall (fun f => length f = 15%nat) (emitted reads)
  /\ Forall (fun f => exists s, decode_frame f = Some s) (emitted reads).
Proof.
  assert (H15 : Forall (fun f => length f = 15%nat) (emitted reads)).
  { rewrite emitted_timeline. generalize (timeline reads) as tl.
    assert (Hstart : Forall (fun f => length f = 15%nat) (handled reader_start))
      by constructor.
    revert Hstart. generalize reader_start as r. intros r Hr tl. revert r Hr.
    induction tl as [|o tl IH]; intros r Hr; [exact Hr|].
    cbn [fold_left]. apply IH, observe_handled_15, Hr. }
  split; [exact H15|].
  eapply Forall_impl; [|exact H15]. intros f Hf. exact (decode_frame_some f Hf).
Qed.

(** ** Command encoding *)

Lemma struct_pack_tx (m h v d : Z) :
  0 <= m <= 255 -> 0 <= h <= 65535 -> 0 <= v <= 65535 -> 0 <= d <= 65535 ->
  struct_pack TX_FORMAT [m; h; v; d] =
  Ret [byte_of m;
       byte_of (h / 256); byte_of (h mod 256);
       byte_of (v / 256); byte_of (v mod 256);
       byte_of (d / 256); byte_of (d mod 256)].
Proof.
  intros Hm Hh Hv Hd. unfold TX_FORMAT.
  rewrite !struct_pack_cons by assumption.
  rewrite !pack_H_bytes. reflexivity.
Qed.

Lemma struct_pack_tx_inv (vals : list Z) (payload : list byte) :
  struct_pack TX_FORMAT vals = Ret payload ->
  length payload = BYTES_PER_FRAME_TX /\ struct_unpack TX_FORMAT payload = Ret vals.
Proof.
  intros Hp. split.
  - exact (struct_pack_length _ _ _ Hp).
  - exact (struct_unpack_pack _ _ _ Hp).
Qed.

Lemma scale_table_lookup (max_raw pct : Z) :
  0 <= pct <= 100 -> In (pct, scale_pct pct max_raw) (scale_table max_raw).
Proof.
  intros Hp. unfold scale_table.
  apply in_map_iff. exists (Z.to_nat pct).
  rewrite Z2Nat.id by lia. split; [reflexivity|].
  apply in_seq. lia.
Qed.

Lemma scale_table_valve_ok :
  forallb (scale_entry_ok MAX_VALVE_STEPS) (scale_table MAX_VALVE_STEPS) = true.
Proof. vm_compute. reflexivity. Qed.

Lemma scale_table_duty_ok :
  forallb (scale_entry_ok MAX_DUTY_RAW) (scale_table MAX_DUTY_RAW) = true.
Proof. vm_compute. reflexivity. Qed.

Lemma scale_entry_ok_spec (max_raw pct : Z) (m : res Z) :
  scale_entry_ok max_raw (pct, m) = true ->
  exists raw, m = Ret raw
    /\ rounds_half_even (pct * max_raw) 100 raw
    /\ rounds_half_away (pct * max_raw) 100 raw
    /\ 0 <= raw <= max_raw
    /\ raw = (pct * max_raw + 50) / 100.
Proof.
  unfold scale_entry_ok. cbn [fst snd]. destruct m as [r|e]; [|discriminate].
  intros Hok. exists r.
  apply andb_true_iff in Hok. destruct Hok as [Hok Hform].
  apply andb_true_iff in Hok. destruct Hok as [Hok Hmax].
  apply andb_true_iff in Hok. destruct Hok as [Hok Hmin].
  apply andb_true_iff in Hok. destruct Hok as [Herr Htie].
  apply Z.leb_le in Herr, Hmax, Hmin. apply Z.eqb_eq in Hform.
  split; [reflexivity|].
  unfold rounds_half_even, rounds_half_away, nearest_to.
  repeat split; try assumption.
  - intros Heq. apply Z.eqb_eq in Heq. rewrite Heq in Htie.
    apply andb_true_iff in Htie. tauto.
  - intros Heq. apply Z.eqb_eq in Heq. rewrite Heq in Htie.
    apply andb_true_iff in Htie. destruct Htie as [_ Hlt].
    apply Z.ltb_lt in Hlt. exact Hlt.
Qed.

(** On the two scales of the program the binary64 computation
    [int(round(pct * max_raw / 100.0))] is the exact rounding of
    [pct * max_raw / 100] to the nearest integer, and stays in the scale. *)
Lemma scale_pct_rounds (pct max_raw : Z) :
  0 <= pct <= 100 ->
  max_raw = MAX_VALVE_STEPS \/ max_raw = MAX_DUTY_RAW ->
  exists raw, scale_pct pct max_raw = Ret raw
    /\ rounds_half_even (pct * max_raw) 100 raw
    /\ rounds_half_away (pct * max_raw) 100 raw
    /\ 0 <= raw <= max_raw
    /\ raw = (pct * max_raw + 50) / 100.
Proof.
  intros Hp Hmax. apply scale_entry_ok_spec.
  pose proof (scale_table_lookup max_raw pct Hp) as Hin.
  destruct Hmax as [-> | ->].
  - exact (proj1 (forallb_forall _ _) scale_table_valve_ok _ Hin).
  - exact (proj1 (forallb_forall _ _) scale_table_duty_ok _ Hin).
Qed.

Lemma clamp_range (val lo hi : Z) : lo <= hi -> lo <= clamp val lo hi <= hi.
Proof. unfold clamp. lia. Qed.

(** [build_command] is the packing of the clamped and scaled fields. *)
Lemma build_command_fields (mode_idx h v d : Z) :
  exists sp_v sp_d,
    scale_pct (clamp v 0 100) MAX_VALVE_STEPS = Ret sp_v
    /\ 0 <= sp_v <= MAX_VALVE_STEPS
    /\ scale_pct (clamp d 0 100) MAX_DUTY_RAW = Ret sp_d
    /\ 0 <= sp_d <= MAX_DUTY_RAW
    /\ build_command mode_idx h v d =
       struct_pack TX_FORMAT [Z.max 0 mode_idx; clamp h 0 500; sp_v; sp_d].
Proof.
  destruct (scale_pct_rounds (clamp v 0 100) MAX_VALVE_STEPS)
    as (sp_v & Hv & _ & _ & Hrv & _); [apply clamp_range; lia | left; reflexivity |].
  destruct (scale_pct_rounds (clamp d 0 100) MAX_DUTY_RAW)
    as (sp_d & Hd & _ & _ & Hrd & _); [apply clamp_range; lia | right; reflexivity |].
  exists sp_v, sp_d. repeat split; try assumption; try lia.
  unfold build_command. rewrite Hv, Hd. cbn [bind].
  replace (if mode_idx <? 0 then 0 else mode_idx) with (Z.max 0 mode_idx);
    [reflexivity|].
  destruct (Z.ltb_spec mode_idx 0); lia.
Qed.

(** C5. Percentage-to-raw conversion rounds [pct * max_raw / 100] to the
    nearest integer, with one rule throughout.  For each of the two scales
    (420 valve steps, 1023 duty counts) and every percentage in [0, 100]
    the value computed in binary64 is the exactly rounded one, it meets
    both the half-even and the half-away-from-zero rule, and it is the
    integer quotient of [pct * max_raw + 50] by 100; the valve and duty
    fields of the command are these values of the clamped percentages.
    50 % of 420 steps is 210 and 33 % of 1023 is 338. *)
Theorem percentage_scaling_rounds_to_nearest :
  (forall pct max_raw : Z,
      0 <= pct <= 100 ->
      max_raw = MAX_VALVE_STEPS \/ max_raw = MAX_DUTY_RAW ->
      exists raw, scale_pct pct max_raw = Ret raw
        /\ rounds_half_even (pct * max_raw) 100 raw
        /\ rounds_half_away (pct * max_raw) 100 raw
        /\ raw = (pct * max_raw + 50) / 100)
  /\ (forall mode_idx h v d : Z,
         exists sp_v sp_d,
           scale_pct (clamp v 0 100) MAX_VALVE_STEPS = Ret sp_v
           /\ scale_pct (clamp d 0 100) MAX_DUTY_RAW = Ret sp_d
           /\ build_command mode_idx h v d =
              struct_pack TX_FORMAT [Z.max 0 mode_idx; clamp h 0 500; sp_v; sp_d])
  /\ scale_pct 50 MAX_VALVE_STEPS = Ret 210
  /\ scale_pct 33 MAX_DUTY_RAW = Ret 338
  /\ build_command 0 0 50 33 = Ret [x00; x00; x00; x00; xd2; x01; x52].
Proof.
  split; [|split; [|split; [|split]]].
  - intros pct max_raw Hp Hmax.
    destruct (scale_pct_rounds pct max_raw Hp Hmax) as (raw & Hr & He & Ha & _ & Hf).
    exists raw. auto.
  - intros mode_idx h v d.
    destruct (build_command_fields mode_idx h v d)
      as (sp_v & sp_d & Hv & _ & Hd & _ & Hb).
    exists sp_v, sp_d. auto.
  - vm_compute. reflexivity.
  - vm_compute. reflexivity.
  - vm_compute. reflexivity.
Qed.

(** The rule applied at 33 % of the duty scale: 337.59 rounds to 338. *)
Lemma percentage_scaling_witness :
  exists raw, scale_pct 33 MAX_DUTY_RAW = Ret raw
    /\ rounds_half_even (33 * MAX_DUTY_RAW) 100 raw
    /\ rounds_half_away (33 * MAX_DUTY_RAW) 100 raw
    /\ raw = (33 * MAX_DUTY_RAW + 50) / 100.
Proof.
  apply (proj1 percentage_scaling_rounds_to_nearest 33 MAX_DUTY_RAW).
  - lia.
  - right. reflexivity.
Defined.

Lemma send_connected (fault : bool) (payload : list byte) (a : BolaNoTuboApp)
      (s : serial_port) :
  ser (conn a) = Some s -> is_open s = true ->
  length payload = BYTES_PER_FRAME_TX ->
  _send fault payload a =
  match serial_write fault payload s with
  | Ret s' => set_status (StatusSent payload) (set_ser (Some s') a)
  | Raise _ => show_dialog ErrTx a
  end.
Proof.
  intros Hs Ho Hl. unfold _send. rewrite Hs, Ho, Hl. reflexivity.
Qed.

(** The payload [build_command] makes of a mode index a byte can hold, byte
    by byte. *)
Lemma build_command_layout (mode_idx h v d : Z) :
  mode_idx <= 255 ->
  exists sp_v sp_d,
    scale_pct (clamp v 0 100) MAX_VALVE_STEPS = Ret sp_v
    /\ scale_pct (clamp d 0 100) MAX_DUTY_RAW = Ret sp_d
    /\ build_command mode_idx h v d =
       Ret [byte_of (Z.max 0 mode_idx);
            byte_of (clamp h 0 500 / 256); byte_of (clamp h 0 500 mod 256);
            byte_of (sp_v / 256); byte_of (sp_v mod 256);
            byte_of (sp_d / 256); byte_of (sp_d mod 256)].
Proof.
  intros Hmode.
  destruct (build_command_fields mode_idx h v d)
    as (sp_v & sp_d & Hv & Hrv & Hd & Hrd & Hb).
  unfold MAX_VALVE_STEPS in Hrv. unfold MAX_DUTY_RAW in Hrd.
  pose proof (clamp_range h 0 500 ltac:(lia)) as Hh.
  exists sp_v, sp_d. split; [exact Hv|]. split; [exact Hd|].
  rewrite Hb. apply struct_pack_tx; lia.
Qed.

(** A mode index above 255 does not fit the mode byte: [struct.pack]
    raises and there is no payload. *)
Lemma build_command_mode_too_large (mode_idx h v d : Z) :
  255 < mode_idx -> build_command mode_idx h v d = Raise StructError.
Proof.
  intros Hmode.
  destruct (build_command_fields mode_idx h v d) as (sp_v & sp_d & _ & _ & _ & _ & Hb).
  rewrite Hb. unfold TX_FORMAT. cbn [struct_pack code_max].
  replace (Z.max 0 mode_idx <=? 255) with false
    by (symmetry; apply Z.leb_gt; lia).
  rewrite andb_false_r. reflexivity.
Qed.

(** C4. Command encoding produces exactly 7 bytes, one unsigned mode byte
    followed by the three unsigned 16-bit big-endian fields height
    setpoint, valve setpoint and fan duty in that order.  Every payload
    [build_command] returns, the one [_send_current_command] sends, is the
    seven bytes written out below: the mode index (0 for a negative one),
    then high byte and low byte of the clamped height, of the scaled valve
    percentage and of the scaled duty percentage; it has 7 bytes and
    unpacks to these four fields; [build_command] returns for every mode
    index a byte can hold, and [_send_current_command] on an open port
    writes these seven bytes.  [struct.pack] itself lays out any four
    fields within their widths in this way, and whatever it packs unpacks
    to the same fields.  The reset command is 03 00 00 00 00 00 00, which
    [_send_reset] writes to an open port. *)
Theorem command_encoding_seven_bytes :
  (forall (mode_idx h v d : Z) (payload : list byte),
      build_command mode_idx h v d = Ret payload ->
      exists sp_v sp_d,
        scale_pct (clamp v 0 100) MAX_VALVE_STEPS = Ret sp_v
        /\ scale_pct (clamp d 0 100) MAX_DUTY_RAW = Ret sp_d
        /\ payload =
           [byte_of (Z.max 0 mode_idx);
            byte_of (clamp h 0 500 / 256); byte_of (clamp h 0 500 mod 256);
            byte_of (sp_v / 256); byte_of (sp_v mod 256);
            byte_of (sp_d / 256); byte_of (sp_d mod 256)]
        /\ length payload = 7%nat
        /\ struct_unpack TX_FORMAT payload =
           Ret [Z.max 0 mode_idx; clamp h 0 500; sp_v; sp_d])
  /\ (forall mode_idx h v d : Z,
         mode_idx <= 255 -> exists payload, build_command mode_idx h v d = Ret payload)
  /\ (forall (a : BolaNoTuboApp) (s : serial_port) (h v d : Z),
         ser (conn a) = Some s -> is_open s = true ->
         mode_combo (entries a) <= 255 ->
         sp_height_var (entries a) = Some h ->
         sp_valve_var (entries a) = Some v ->
         sp_duty_var (entries a) = Some d ->
         exists a' s' sp_v sp_d,
           _send_current_command false a = Ret a'
           /\ scale_pct (clamp v 0 100) MAX_VALVE_STEPS = Ret sp_v
           /\ scale_pct (clamp d 0 100) MAX_DUTY_RAW = Ret sp_d
           /\ ser (conn a') = Some s'
           /\ written s' = written s ++
                [[byte_of (Z.max 0 (mode_combo (entries a)));
                  byte_of (clamp h 0 500 / 256); byte_of (clamp h 0 500 mod 256);
                  byte_of (sp_v / 256); byte_of (sp_v mod 256);
                  byte_of (sp_d / 256); byte_of (sp_d mod 256)]])
  /\ (forall m h v d : Z,
         0 <= m <= 255 -> 0 <= h <= 65535 -> 0 <= v <= 65535 -> 0 <= d <= 65535 ->
         struct_pack TX_FORMAT [m; h; v; d] =
         Ret [byte_of m;
              byte_of (h / 256); byte_of (h mod 256);
              byte_of (v / 256); byte_of (v mod 256);
              byte_of (d / 256); byte_of (d mod 256)])
  /\ (forall (vals : list Z) (payload : list byte),
         struct_pack TX_FORMAT vals = Ret payload ->
         length payload = 7%nat /\ struct_unpack TX_FORMAT payload = Ret vals)
  /\ struct_pack TX_FORMAT [3; 0; 0; 0] = Ret [x03; x00; x00; x00; x00; x00; x00]
  /\ (forall (a : BolaNoTuboApp) (s : serial_port),
         ser (conn a) = Some s -> is_open s = true ->
         exists a' s',
           _send_reset false a = Ret a'
           /\ ser (conn a') = Some s'
           /\ written s' = written s ++ [[x03; x00; x00; x00; x00; x00; x00]]).
Proof.
  split; [|split; [|split; [|split; [|split; [|split]]]]].
  - intros mode_idx h v d payload Hb.
    destruct (Z_le_gt_dec mode_idx 255) as [Hmode|Hmode].
    + destruct (build_command_layout mode_idx h v d Hmode) as (sp_v & sp_d & Hv & Hd & Hl).
      exists sp_v, sp_d. split; [exact Hv|]. split; [exact Hd|].
      assert (Hpay : payload =
                [byte_of (Z.max 0 mode_idx);
                 byte_of (clamp h 0 500 / 256); byte_of (clamp h 0 500 mod 256);
                 byte_of (sp_v / 256); byte_of (sp_v mod 256);
                 byte_of (sp_d / 256); byte_of (sp_d mod 256)])
        by congruence.
      split; [exact Hpay|].
      destruct (build_command_fields mode_idx h v d)
        as (sp_v' & sp_d' & Hv' & _ & Hd' & _ & Hp).
      assert (sp_v' = sp_v) by congruence. assert (sp_d' = sp_d) by congruence.
      subst sp_v' sp_d'. rewrite Hp in Hb.
      destruct (struct_pack_tx_inv _ _ Hb) as [Hlen Hun].
      split; [exact Hlen | exact Hun].
    + rewrite (build_command_mode_too_large mode_idx h v d) in Hb by lia.
      discriminate Hb.
  - intros mode_idx h v d Hmode.
    destruct (build_command_layout mode_idx h v d Hmode) as (sp_v & sp_d & _ & _ & Hl).
    eexists. exact Hl.
  - intros a s h v d Hs Ho Hmode Eh Ev Ed.
    destruct (build_command_layout (mode_combo (entries a)) h v d Hmode)
      as (sp_v & sp_d & Hv & Hd & Hl).
    unfold _send_current_command. rewrite Eh, Ev, Ed. cbn [intvar_get bind].
    rewrite Hl. cbn [bind].
    rewrite (send_connected false _ a s Hs Ho) by reflexivity.
    cbn [serial_write]. eexists. eexists. exists sp_v, sp_d.
    split; [reflexivity|]. split; [exact Hv|]. split; [exact Hd|].
    split; reflexivity.
  - exact struct_pack_tx.
  - exact struct_pack_tx_inv.
  - reflexivity.
  - intros a s Hs Ho. unfold _send_reset.
    change (struct_pack TX_FORMAT [3; 0; 0; 0])
      with (@Ret (list byte) [x03; x00; x00; x00; x00; x00; x00]).
    cbn [bind].
    rewrite (send_connected false [x03; x00; x00; x00; x00; x00; x00] a s Hs Ho eq_refl).
    cbn [serial_write]. eexists. eexists. split; [reflexivity|]. split; reflexivity.
Qed.

(** Mode 1 with 500 mm, 50 % of the valve and 33 % of the fan: the payload
    is 01, 01 F4 (500), 00 D2 (210), 01 52 (338). *)
Lemma command_encoding_witness :
  build_command 1 500 50 33 = Ret [x01; x01; xf4; x00; xd2; x01; x52]
  /\ exists sp_v sp_d,
       scale_pct (clamp 50 0 100) MAX_VALVE_STEPS = Ret sp_v
       /\ scale_pct (clamp 33 0 100) MAX_DUTY_RAW = Ret sp_d
       /\ [x01; x01; xf4; x00; xd2; x01; x52] =
          [byte_of (Z.max 0 1);
           byte_of (clamp 500 0 500 / 256); byte_of (clamp 500 0 500 mod 256);
           byte_of (sp_v / 256); byte_of (sp_v mod 256);
           byte_of (sp_d / 256); byte_of (sp_d mod 256)]
       /\ length [x01; x01; xf4; x00; xd2; x01; x52] = 7%nat
       /\ struct_unpack TX_FORMAT [x01; x01; xf4; x00; xd2; x01; x52] =
          Ret [Z.max 0 1; clamp 500 0 500; sp_v; sp_d].
Proof.
  assert (Hb : build_command 1 500 50 33 = Ret [x01; x01; xf4; x00; xd2; x01; x52])
    by (vm_compute; reflexivity).
  split; [exact Hb|].
  exact (proj1 command_encoding_seven_bytes 1 500 50 33
               [x01; x01; xf4; x00; xd2; x01; x52] Hb).
Defined.

(** C10. The command-building path cannot produce an out-of-range field.
    With the mode index one of the combo box's (at most 3, negative when
    nothing is selected), whatever integers the three entries hold: the
    mode sent lies in [0, 3], the height in [0, 500], the valve setpoint in
    [0, 420] and the duty in [0, 1023]; [struct.pack] does not raise; the
    payload carries exactly these fields in 7 bytes; and [_send] on an open
    port goes past its size check to the write. *)
Theorem command_fields_fit_wire_widths :
  forall mode_idx h v d : Z,
    mode_idx <= 3 ->
    exists (sp_v sp_d : Z) (payload : list byte),
      0 <= Z.max 0 mode_idx <= 3
      /\ 0 <= clamp h 0 500 <= 500
      /\ scale_pct (clamp v 0 100) MAX_VALVE_STEPS = Ret sp_v /\ 0 <= sp_v <= 420
      /\ scale_pct (clamp d 0 100) MAX_DUTY_RAW = Ret sp_d /\ 0 <= sp_d <= 1023
      /\ build_command mode_idx h v d = Ret payload
      /\ struct_unpack TX_FORMAT payload =
         Ret [Z.max 0 mode_idx; clamp h 0 500; sp_v; sp_d]
      /\ length payload = BYTES_PER_FRAME_TX
      /\ (forall (fault : bool) (a : BolaNoTuboApp),
             mode_combo (entries a) = mode_idx ->
             sp_height_var (entries a) = Some h ->
             sp_valve_var (entries a) = Some v ->
             sp_duty_var (entries a) = Some d ->
             _send_current_command fault a = Ret (_send fault payload a))
      /\ (forall (fault : bool) (a : BolaNoTuboApp) (s : serial_port),
             ser (conn a) = Some s -> is_open s = true ->
             _send fault payload a =
             match serial_write fault payload s with
             | Ret s' => set_status (StatusSent payload) (set_ser (Some s') a)
             | Raise _ => show_dialog ErrTx a
             end).
Proof.
  intros mode_idx h v d Hmode.
  destruct (build_command_fields mode_idx h v d)
    as (sp_v & sp_d & Hv & Hrv & Hd & Hrd & Hb).
  unfold MAX_VALVE_STEPS in Hrv. unfold MAX_DUTY_RAW in Hrd.
  pose proof (clamp_range h 0 500 ltac:(lia)) as Hh.
  destruct (struct_pack_fits TX_FORMAT [Z.max 0 mode_idx; clamp h 0 500; sp_v; sp_d])
    as [payload Hp].
  { unfold TX_FORMAT.
    repeat (apply Forall2_cons; [cbn [code_max]; lia|]). apply Forall2_nil. }
  rewrite Hp in Hb.
  destruct (struct_pack_tx_inv _ _ Hp) as [Hlen Hun].
  exists sp_v, sp_d, payload.
  repeat (split; [first [assumption | lia]|]).
  split.
  - intros fault a Hm Eh Ev Ed. unfold _send_current_command.
    rewrite Eh, Ev, Ed, Hm. cbn [intvar_get bind]. rewrite Hb. reflexivity.
  - intros fault a s Hs Ho. apply send_connected; assumption.
Qed.

(** Nothing selected in the combo box and every entry far out of range. *)
Lemma command_fields_witness :
  exists (sp_v sp_d : Z) (payload : list byte),
    0 <= Z.max 0 (-1) <= 3
    /\ 0 <= clamp 9999 0 500 <= 500
    /\ scale_pct (clamp 250 0 100) MAX_VALVE_STEPS = Ret sp_v /\ 0 <= sp_v <= 420
    /\ scale_pct (clamp (-7) 0 100) MAX_DUTY_RAW = Ret sp_d /\ 0 <= sp_d <= 1023
    /\ build_command (-1) 9999 250 (-7) = Ret payload
    /\ struct_unpack TX_FORMAT payload =
       Ret [Z.max 0 (-1); clamp 9999 0 500; sp_v; sp_d]
    /\ length payload = BYTES_PER_FRAME_TX
    /\ (forall (fault : bool) (a : BolaNoTuboApp),
           mode_combo (entries a) = -1 ->
           sp_height_var (entries a) = Some 9999 ->
           sp_valve_var (entries a) = Some 250 ->
           sp_duty_var (entries a) = Some (-7) ->
           _send_current_command fault a = Ret (_send fault payload a))
    /\ (forall (fault : bool) (a : BolaNoTuboApp) (s : serial_port),
           ser (conn a) = Some s -> is_open s = true ->
           _send fault payload a =
           match serial_write fault payload s with
           | Ret s' => set_status (StatusSent payload) (set_ser (Some s') a)
           | Raise _ => show_dialog ErrTx a
           end).
Proof.
  apply (command_fields_fit_wire_widths (-1) 9999 250 (-7)). lia.
Defined.

(** ** Sending *)

Lemma send_not_connected (fault : bool) (payload : list byte) (a : BolaNoTuboApp) :
  connected a = false -> _send fault payload a = show_dialog WarnNotConnected a.
Proof.
  unfold connected, _send. destruct (ser (conn a)) as [s|]; [|reflexivity].
  intros ->. reflexivity.
Qed.

Lemma send_wrong_size (fault : bool) (payload : list byte) (a : BolaNoTuboApp) :
  connected a = true -> length payload <> BYTES_PER_FRAME_TX ->
  _send fault payload a = show_dialog ErrTxFrameSize a.
Proof.
  unfold connected, _send. destruct (ser (conn a)) as [s|]; [|discriminate].
  intros -> Hlen. apply Nat.eqb_neq in Hlen. rewrite Hlen. reflexivity.
Qed.

(** C7, as stated, fails: with no connection a 6-byte payload is answered
    by the not-connected warning, the connection test coming first in
    [_send]; the size error is not shown. *)
Lemma send_wrong_size_while_disconnected :
  _send false [x00; x00; x00; x00; x00; x00] init_app
  = show_dialog WarnNotConnected init_app
  /\ dialogs (ui (_send false [x00; x00; x00; x00; x00; x00] init_app))
     = [WarnNotConnected]
  /\ ~ wrong_size_always_reported.
Proof.
  split; [reflexivity|]. split; [reflexivity|].
  intros Hclaim.
  specialize (Hclaim false [x00; x00; x00; x00; x00; x00] init_app).
  assert (Hne : length [x00; x00; x00; x00; x00; x00] <> BYTES_PER_FRAME_TX)
    by (cbn; discriminate).
  apply Hclaim in Hne.
  apply (f_equal (fun a => dialogs (ui a))) in Hne.
  cbn in Hne. discriminate Hne.
Qed.

(** C7, amended.  [_send] while no connection is open answers every
    payload with the not-connected warning; with a connection open it
    answers every payload whose length is not 7 with the size error; in
    both cases nothing is written: the connection, with the port's record
    of written payloads, and everything but the list of dialogs stay as
    they were. *)
Theorem send_validation :
  forall (fault : bool) (payload : list byte) (a : BolaNoTuboApp),
    (connected a = false ->
       _send fault payload a = show_dialog WarnNotConnected a)
    /\ (connected a = true -> length payload <> 7%nat ->
       _send fault payload a = show_dialog ErrTxFrameSize a)
    /\ (connected a = false \/ length payload <> 7%nat ->
       conn (_send fault payload a) = conn a
       /\ status_label (ui (_send fault payload a)) = status_label (ui a)
       /\ exists d, dialogs (ui (_send fault payload a)) = dialogs (ui a) ++ [d]
                    /\ (d = WarnNotConnected \/ d = ErrTxFrameSize)).
Proof.
  intros fault payload a. split; [|split].
  - apply send_not_connected.
  - apply send_wrong_size.
  - intros Hcase. destruct (connected a) eqn:Hc.
    + destruct Hcase as [Hf|Hlen]; [discriminate Hf|].
      rewrite (send_wrong_size fault payload a Hc Hlen).
      repeat split. exists ErrTxFrameSize. split; [reflexivity | right; reflexivity].
    + rewrite (send_not_connected fault payload a Hc).
      repeat split. exists WarnNotConnected. split; [reflexivity | left; reflexivity].
Qed.

(** An 8-byte payload on an open port. *)
Lemma send_validation_witness :
  _send false [x00; x00; x00; x00; x00; x00; x00; x00] connected_example
  = show_dialog ErrTxFrameSize connected_example.
Proof.
  apply (proj1 (proj2 (send_validation false
                         [x00; x00; x00; x00; x00; x00; x00; x00] connected_example))).
  - reflexivity.
  - cbn. discriminate.
Defined.

(** ** Actions *)

(** [_disconnect] always returns, with the session torn down. *)
Lemma disconnect_returns (alive fault : bool) (a : BolaNoTuboApp) :
  _disconnect alive fault a = Ret (torn_down a).
Proof.
  unfold _disconnect.
  replace (match reader_thread (conn (set_reader_alive false a)) with
           | Some t => if alive then join_timeout t (set_reader_alive false a)
                       else set_reader_alive false a
           | None => set_reader_alive false a
           end) with (set_reader_alive false a)
    by (destruct (reader_thread (conn (set_reader_alive false a))), alive; reflexivity).
  destruct (ser (conn (set_reader_alive false a))) as [s|]; [|reflexivity].
  unfold serial_close. destruct fault; reflexivity.
Qed.

Lemma torn_down_status (s : status_text) (a : BolaNoTuboApp) :
  torn_down (set_status s a) = torn_down a.
Proof. reflexivity. Qed.

Section RunInvariant.

Variable P : BolaNoTuboApp -> Prop.
Hypothesis P_step : forall a act a', P a -> step a act = Ret a' -> P a'.

(** An invariant of one step is an invariant of every run. *)
Lemma run_invariant :
  forall acts a a', P a -> run acts a = Ret a' -> P a'.
Proof.
  induction acts as [|act acts IH]; intros a a' Ha Hrun.
  - cbn in Hrun. injection Hrun as <-. exact Ha.
  - cbn [run] in Hrun. destruct (step a act) as [a1|e] eqn:Hs; [|discriminate Hrun].
    cbn [bind] in Hrun. exact (IH a1 a' (P_step a act a1 Ha Hs) Hrun).
Qed.

End RunInvariant.

Lemma run_app (acts rest : list action) :
  forall a, run (acts ++ rest) a = (a1 <- run acts a ;; run rest a1).
Proof.
  induction acts as [|act acts IH]; intros a; [reflexivity|].
  cbn [List.app run]. destruct (step a act) as [a1|e]; [|reflexivity].
  cbn [bind]. apply IH.
Qed.

Lemma action_frame_or_other (act : action) :
  (exists now frame, act = Frame now frame)
  \/ (forall now frame, act <> Frame now frame).
Proof.
  destruct act; [left; eauto | right; discriminate ..].
Qed.

(** Every action of the main loop returns, with one of the effects of
    [callback_effect]. *)
Lemma step_callback (a : BolaNoTuboApp) (act : action) :
  (forall now frame, act <> Frame now frame) ->
  exists a', step a act = Ret a' /\ callback_effect a a'.
Proof.
  intros Hact.
  destruct act as [now frame|e|alive fault|fault|fault| |alive fault|alive fault];
    cbn [step].
  - elim (Hact now frame). reflexivity.
  - effect_found.
  - unfold _toggle_connection. destruct (connected a) eqn:Hc.
    + rewrite disconnect_returns. effect_found.
    + effect_found.
  - unfold _send_current_command, callback.
    destruct (intvar_get (sp_height_var (entries a))) as [h|]; cbn [bind try_except];
      [|effect_found].
    destruct (intvar_get (sp_valve_var (entries a))) as [v|]; cbn [bind try_except];
      [|effect_found].
    destruct (intvar_get (sp_duty_var (entries a))) as [d|]; cbn [bind try_except];
      [|effect_found].
    destruct (build_command (mode_combo (entries a)) h v d) as [payload|];
      cbn [bind try_except]; effect_found.
  - unfold _send_reset, callback.
    destruct (struct_pack TX_FORMAT [3; 0; 0; 0]) as [payload|];
      cbn [bind try_except]; effect_found.
  - effect_found.
  - rewrite disconnect_returns. effect_found.
  - rewrite disconnect_returns, torn_down_status. effect_found.
Qed.

Lemma step_cases (a : BolaNoTuboApp) (act : action) (a' : BolaNoTuboApp) :
  step a act = Ret a' ->
  (exists now frame, act = Frame now frame /\ _handle_frame now frame a = Ret a')
  \/ ((forall now frame, act <> Frame now frame) /\ callback_effect a a').
Proof.
  intros Hstep. destruct (action_frame_or_other act) as [(now & frame & ->) | Hother].
  - left. exists now, frame. split; [reflexivity | exact Hstep].
  - right. split; [exact Hother|].
    destruct (step_callback a act Hother) as (a1 & Hs & Heff).
    rewrite Hstep in Hs. injection Hs as <-. exact Heff.
Qed.

(** [_handle_frame] changes the readouts and the history only. *)
Lemma handle_frame_frame (now : Q) (frame : list byte) (a a' : BolaNoTuboApp) :
  _handle_frame now frame a = Ret a' ->
  conn a' = conn a /\ ui a' = ui a /\ entries a' = entries a
  /\ window_seconds a' = window_seconds a.
Proof.
  unfold _handle_frame. destruct (decode_frame frame) as [s|].
  - destruct (push_history now (window_seconds (set_rx_vars s a)) s
                (hist (set_rx_vars s a))) as [h|e]; [|discriminate].
    cbn [bind]. intros [= <-]. repeat split.
  - intros [= <-]. repeat split.
Qed.

Lemma send_hist (fault : bool) (payload : list byte) (a : BolaNoTuboApp) :
  hist (_send fault payload a) = hist a
  /\ window_seconds (_send fault payload a) = window_seconds a.
Proof.
  unfold _send. destruct (ser (conn a)) as [s|]; [|split; reflexivity].
  destruct (negb (is_open s)); [split; reflexivity|].
  destruct (negb (Nat.eqb (length payload) BYTES_PER_FRAME_TX)); [split; reflexivity|].
  destruct (serial_write fault payload s); split; reflexivity.
Qed.

Lemma connect_hist (fault : bool) (a : BolaNoTuboApp) :
  hist (_connect fault a) = hist a
  /\ window_seconds (_connect fault a) = window_seconds a.
Proof.
  unfold _connect. destruct (port_combo (entries a)); [split; reflexivity|].
  destruct (serial_open fault _); split; reflexivity.
Qed.

Lemma apply_window_hist (a : BolaNoTuboApp) :
  hist (_apply_window_seconds a) = hist a.
Proof.
  unfold _apply_window_seconds.
  destruct (intvar_get (window_seconds_var (entries a))); reflexivity.
Qed.

(** Only [_handle_frame] touches the history. *)
Lemma callback_effect_hist (a a' : BolaNoTuboApp) :
  callback_effect a a' -> hist a' = hist a.
Proof.
  destruct 1 as [|e|fault Hc| |fault payload|]; try reflexivity.
  - apply connect_hist.
  - apply send_hist.
  - apply apply_window_hist.
Qed.

Lemma window_in_range_init : window_in_range init_app.
Proof.
  unfold window_in_range. change (window_seconds init_app) with 60. lia.
Qed.

Lemma callback_effect_window (a a' : BolaNoTuboApp) :
  callback_effect a a' -> window_in_range a -> window_in_range a'.
Proof.
  unfold window_in_range.
  destruct 1 as [|e|fault Hc| |fault payload|]; intros Hw; try exact Hw.
  - rewrite (proj2 (connect_hist fault a)). exact Hw.
  - rewrite (proj2 (send_hist fault payload a)). exact Hw.
  - unfold _apply_window_seconds.
    destruct (intvar_get (window_seconds_var (entries a))) as [val|]; [|exact Hw].
    cbn [with_window_seconds window_seconds].
    set (v1 := if val <? 5 then 5 else val).
    assert (5 <= v1) by (unfold v1; destruct (Z.ltb_spec val 5); lia).
    destruct (Z.ltb_spec 600 v1); lia.
Qed.

Lemma window_in_range_step (a : BolaNoTuboApp) (act : action) (a' : BolaNoTuboApp) :
  window_in_range a -> step a act = Ret a' -> window_in_range a'.
Proof.
  intros Hw Hstep.
  destruct (step_cases a act a' Hstep) as [(now & frame & _ & Hf) | [_ Heff]].
  - unfold window_in_range.
    destruct (handle_frame_frame _ _ _ _ Hf) as (_ & _ & _ & ->). exact Hw.
  - exact (callback_effect_window a a' Heff Hw).
Qed.

(** ** Connection life cycle *)













(** ** The plot history *)

Lemma aligned_appended (now : Q) (s : sample) (h : history) :
  aligned h -> aligned (appended now s h).
Proof.
  unfold aligned, appended. cbn. rewrite !length_app. cbn. lia.
Qed.

Lemma aligned_drop_oldest (k : nat) (h : history) :
  aligned h -> aligned (drop_oldest k h).
Proof.
  unfold aligned, drop_oldest. cbn. rewrite !length_skipn. lia.
Qed.

(** On series of equal length the eviction loop raises nothing and removes
    the same number of points from each. *)
Lemma evict_lockstep (tmin : Q) (ts : list Q) :
  forall (sp meas : list Z) (duty valve : list float),
    length sp = length ts -> length meas = length ts ->
    length duty = length ts -> length valve = length ts ->
    exists k, (k <= length ts)%nat
      /\ evict tmin ts sp meas duty valve =
         Ret (drop_oldest k {| t_hist := ts; sp_height_hist := sp;
                               meas_height_hist := meas; duty_pct_hist := duty;
                               valve_pct_hist := valve |}).
Proof.
  induction ts as [|t0 ts IH]; intros sp meas duty valve Hsp Hmeas Hduty Hvalve.
  - exists 0%nat. split; [cbn; lia | reflexivity].
  - cbn [evict]. destruct (Qltb t0 tmin).
    + destruct sp as [|x sp]; [discriminate Hsp|].
      destruct meas as [|y meas]; [discriminate Hmeas|].
      destruct duty as [|u duty]; [discriminate Hduty|].
      destruct valve as [|v valve]; [discriminate Hvalve|].
      cbn [popleft bind].
      cbn [length] in Hsp, Hmeas, Hduty, Hvalve.
      destruct (IH sp meas duty valve) as (k & Hk & Hev); try lia.
      exists (S k). split; [cbn [length]; lia | exact Hev].
    + exists 0%nat. split; [lia | reflexivity].
Qed.

Lemma push_history_lockstep (now : Q) (window : Z) (s : sample) (h : history) :
  aligned h ->
  exists k, (k <= length (t_hist h) + 1)%nat
    /\ push_history now window s h = Ret (drop_oldest k (appended now s h)).
Proof.
  intros Ha. apply (aligned_appended now s) in Ha.
  destruct Ha as (H1 & H2 & H3 & H4). unfold push_history.
  destruct (evict_lockstep (now - inject_Z window)%Q (t_hist (appended now s h))
              (sp_height_hist (appended now s h)) (meas_height_hist (appended now s h))
              (duty_pct_hist (appended now s h)) (valve_pct_hist (appended now s h))
              H1 H2 H3 H4) as (k & Hk & Hev).
  exists k. split; [|exact Hev].
  cbn [appended t_hist] in Hk. rewrite length_app in Hk. exact Hk.
Qed.

(** What [_handle_frame] does to the history. *)
Lemma handle_frame_hist (now : Q) (frame : list byte) (a : BolaNoTuboApp) :
  aligned (hist a) ->
  exists a', _handle_frame now frame a = Ret a'
    /\ window_seconds a' = window_seconds a
    /\ aligned (hist a')
    /\ ((decode_frame frame = None /\ hist a' = hist a)
        \/ exists s h',
             decode_frame frame = Some s
             /\ push_history now (window_seconds a) s (hist a) = Ret h'
             /\ hist a' = h'
             /\ exists k, t_hist h' = skipn k (t_hist (hist a) ++ [now])).
Proof.
  intros Ha. unfold _handle_frame. destruct (decode_frame frame) as [s|].
  - destruct (push_history_lockstep now (window_seconds (set_rx_vars s a)) s
                (hist (set_rx_vars s a)) Ha) as (k & _ & Hp).
    rewrite Hp. cbn [bind]. eexists. split; [reflexivity|].
    split; [reflexivity|]. split.
    + cbn [with_hist hist]. apply aligned_drop_oldest, aligned_appended. exact Ha.
    + right. exists s. eexists. split; [reflexivity|]. split; [exact Hp|].
      split; [reflexivity|]. exists k. reflexivity.
  - exists a. split; [reflexivity|]. split; [reflexivity|]. split; [exact Ha|].
    left. split; reflexivity.
Qed.

Lemma handle_frame_aligned (now : Q) (frame : list byte) (a : BolaNoTuboApp) :
  aligned (hist a) ->
  exists a', _handle_frame now frame a = Ret a' /\ aligned (hist a').
Proof.
  intros Ha. destruct (handle_frame_hist now frame a Ha) as (a' & Hh & _ & Ha' & _).
  exists a'. split; assumption.
Qed.

(** Every action but a frame returns, and returns the history it found. *)
Lemma step_other_hist (a : BolaNoTuboApp) (act : action) :
  (forall now frame, act <> Frame now frame) ->
  exists a', step a act = Ret a' /\ hist a' = hist a.
Proof.
  intros Hact. destruct (step_callback a act Hact) as (a' & Hs & Heff).
  exists a'. split; [exact Hs | exact (callback_effect_hist a a' Heff)].
Qed.

Lemma step_aligned (a : BolaNoTuboApp) (act : action) :
  aligned (hist a) -> exists a', step a act = Ret a' /\ aligned (hist a').
Proof.
  intros Ha. destruct (action_frame_or_other act) as [(now & frame & ->) | Hother].
  - exact (handle_frame_aligned now frame a Ha).
  - destruct (step_other_hist a act Hother) as (a' & Hs & Hh).
    exists a'. split; [exact Hs | rewrite Hh; exact Ha].
Qed.

Lemma run_aligned (acts : list action) :
  forall a, aligned (hist a) -> exists a', run acts a = Ret a' /\ aligned (hist a').
Proof.
  induction acts as [|act acts IH]; intros a Ha.
  - exists a. split; [reflexivity | exact Ha].
  - destruct (step_aligned a act Ha) as (a1 & Hs & Ha1).
    destruct (IH a1 Ha1) as (a' & Hr & Ha').
    exists a'. split; [|exact Ha']. cbn [run]. rewrite Hs. exact Hr.
Qed.

Lemma aligned_init : aligned (hist init_app).
Proof. repeat split. Qed.

(** *** The two threads *)














(** ** The plot window *)

Lemma Qltb_Qle_bool (x y : Q) : Qltb x y = negb (Qle_bool y x).
Proof. reflexivity. Qed.

Lemma filter_all (f : Q -> bool) (l : list Q) :
  Forall (fun t => f t = true) l -> filter f l = l.
Proof.
  induction 1 as [|t l Ht _ IH]; [reflexivity|].
  cbn [filter]. rewrite Ht, IH. reflexivity.
Qed.

Lemma StronglySorted_tail (t0 : Q) (ts : list Q) :
  StronglySorted Qle (t0 :: ts) -> StronglySorted Qle ts /\ Forall (Qle t0) ts.
Proof. intros Hs. inversion Hs; subst. split; assumption. Qed.

(** On a time-ordered axis the eviction loop keeps exactly the readings
    that are not older than [tmin]. *)
Lemma evict_sorted (tmin : Q) (ts : list Q) :
  forall (sp meas : list Z) (duty valve : list float),
    length sp = length ts -> length meas = length ts ->
    length duty = length ts -> length valve = length ts ->
    StronglySorted Qle ts ->
    exists h, evict tmin ts sp meas duty valve = Ret h
      /\ t_hist h = filter (Qle_bool tmin) ts
      /\ Forall (fun t => (tmin <= t)%Q) (t_hist h).
Proof.
  induction ts as [|t0 ts IH]; intros sp meas duty valve Hsp Hmeas Hduty Hvalve Hsorted.
  - eexists. split; [reflexivity|]. split; [reflexivity | constructor].
  - apply StronglySorted_tail in Hsorted. destruct Hsorted as [Hsorted Hall].
    cbn [evict filter]. rewrite Qltb_Qle_bool.
    destruct (Qle_bool tmin t0) eqn:Hle; cbn [negb].
    + eexists. split; [reflexivity|]. cbn [t_hist].
      apply Qle_bool_iff in Hle.
      assert (Hge : Forall (fun t => (tmin <= t)%Q) ts).
      { eapply Forall_impl; [|exact Hall]. intros t Ht. cbn beta in Ht.
        apply Qle_trans with t0; assumption. }
      split.
      * f_equal. symmetry. apply filter_all.
        eapply Forall_impl; [|exact Hge]. intros t Ht. apply Qle_bool_iff. exact Ht.
      * constructor; assumption.
    + destruct sp as [|x sp]; [discriminate Hsp|].
      destruct meas as [|y meas]; [discriminate Hmeas|].
      destruct duty as [|u duty]; [discriminate Hduty|].
      destruct valve as [|v valve]; [discriminate Hvalve|].
      cbn [popleft bind]. cbn [length] in Hsp, Hmeas, Hduty, Hvalve.
      apply IH; try lia. exact Hsorted.
Qed.

Lemma push_history_window (now : Q) (window : Z) (s : sample) (h : history) :
  aligned h ->
  StronglySorted Qle (t_hist h ++ [now]) ->
  exists h', push_history now window s h = Ret h'
    /\ t_hist h' = filter (Qle_bool (now - inject_Z window)) (t_hist h ++ [now])
    /\ Forall (fun t => (now - inject_Z window <= t)%Q) (t_hist h').
Proof.
  intros Ha Hsorted. apply (aligned_appended now s) in Ha.
  destruct Ha as (H1 & H2 & H3 & H4). unfold push_history.
  exact (evict_sorted _ _ _ _ _ _ H1 H2 H3 H4 Hsorted).
Qed.

Lemma StronglySorted_app_skipn (k : nat) :
  forall l rest : list Q,
    StronglySorted Qle (l ++ rest) -> StronglySorted Qle (skipn k l ++ rest).
Proof.
  induction k as [|k IH]; intros l rest Hs; [exact Hs|].
  destruct l as [|x l]; [exact Hs|].
  cbn [skipn]. apply IH. cbn [List.app] in Hs.
  exact (proj1 (StronglySorted_tail _ _ Hs)).
Qed.

Lemma StronglySorted_app_drop (l : list Q) :
  forall (x : Q) (rest : list Q),
    StronglySorted Qle (l ++ x :: rest) -> StronglySorted Qle (l ++ rest).
Proof.
  induction l as [|y l IH]; intros x rest Hs; cbn [List.app] in *.
  - exact (proj1 (StronglySorted_tail _ _ Hs)).
  - apply StronglySorted_tail in Hs. destruct Hs as [Hs Hall].
    constructor; [exact (IH x rest Hs)|].
    apply Forall_app in Hall. destruct Hall as [Hl Hr].
    apply Forall_app. split; [exact Hl|]. inversion Hr; assumption.
Qed.

Lemma frame_times_other (act : action) (acts : list action) :
  (forall now frame, act <> Frame now frame) ->
  frame_times (act :: acts) = frame_times acts.
Proof.
  intros Hact. unfold frame_times. cbn [flat_map].
  destruct act; try reflexivity. elim (Hact now frame). reflexivity.
Qed.

(** Along a chronological run the time axis stays ordered, also with the
    readings still to come. *)
Lemma run_chronological (acts : list action) :
  forall (rest : list action) (a a' : BolaNoTuboApp),
    aligned (hist a) ->
    StronglySorted Qle (t_hist (hist a) ++ frame_times (acts ++ rest)) ->
    run acts a = Ret a' ->
    aligned (hist a')
    /\ StronglySorted Qle (t_hist (hist a') ++ frame_times rest).
Proof.
  induction acts as [|act acts IH]; intros rest a a' Ha Hs Hrun.
  - cbn in Hrun. injection Hrun as <-. split; assumption.
  - cbn [run] in Hrun. cbn [List.app] in Hs.
    destruct (step a act) as [a1|e] eqn:Hstep; [|discriminate Hrun].
    cbn [bind] in Hrun.
    apply (IH rest a1 a'); [| |exact Hrun].
    + destruct (step_aligned a act Ha) as (a2 & Hs2 & Ha2).
      rewrite Hstep in Hs2. injection Hs2 as <-. exact Ha2.
    + destruct (action_frame_or_other act) as [(now & frame & ->) | Hother].
      * cbn [step] in Hstep.
        destruct (handle_frame_hist now frame a Ha) as (a2 & Hh & _ & _ & Hcase).
        rewrite Hstep in Hh. injection Hh as <-.
        change (frame_times (Frame now frame :: acts ++ rest))
          with (now :: frame_times (acts ++ rest)) in Hs.
        destruct Hcase as [[_ Heq] | (s & h' & _ & _ & Heq & k & Hk)].
        -- rewrite Heq. exact (StronglySorted_app_drop _ _ _ Hs).
        -- rewrite Heq, Hk. apply StronglySorted_app_skipn.
           rewrite <- app_assoc. exact Hs.
      * destruct (step_other_hist a act Hother) as (a2 & Hs2 & Hh).
        rewrite Hstep in Hs2. injection Hs2 as <-. rewrite Hh.
        rewrite (frame_times_other act _ Hother) in Hs. exact Hs.
Qed.

Lemma filter_app_last (tmin now : Q) (l : list Q) :
  (tmin <= now)%Q ->
  filter (Qle_bool tmin) (l ++ [now]) = filter (Qle_bool tmin) l ++ [now].
Proof.
  intros Hle. rewrite filter_app. cbn [filter].
  apply Qle_bool_iff in Hle. rewrite Hle. reflexivity.
Qed.

(** After a frame of 15 bytes handled at [now], at the end of a
    chronological run: every retained reading is within the window that
    ends at [now], and [now] is the newest. *)
Lemma run_window (acts : list action) (now : Q) (frame : list byte)
      (a' : BolaNoTuboApp) :
  chronological (acts ++ [Frame now frame]) ->
  length frame = 15%nat ->
  run (acts ++ [Frame now frame]) init_app = Ret a' ->
  Forall (fun t => (now - inject_Z (window_seconds a') <= t)%Q) (t_hist (hist a'))
  /\ exists older, t_hist (hist a') = older ++ [now].
Proof.
  intros Hchrono Hlen Hrun. rewrite run_app in Hrun.
  destruct (run acts init_app) as [a|e] eqn:Hacts; [|discriminate Hrun].
  cbn [bind run step] in Hrun.
  destruct (run_chronological acts [Frame now frame] init_app a aligned_init Hchrono Hacts)
    as [Ha Hsorted].
  pose proof (run_invariant window_in_range window_in_range_step acts init_app a
                window_in_range_init Hacts) as Hw.
  change (frame_times [Frame now frame]) with [now] in Hsorted.
  destruct (handle_frame_hist now frame a Ha) as (a2 & Hh & Hwin & _ & Hcase).
  rewrite Hh in Hrun. cbn [bind] in Hrun. injection Hrun as <-.
  destruct Hcase as [[Hnone _] | (s & h' & _ & Hpush & Heq & _)].
  - destruct (decode_frame_some frame Hlen) as [s Hs]. congruence.
  - destruct (push_history_window now (window_seconds a) s (hist a) Ha Hsorted)
      as (h2 & Hpush2 & Hfilter & Hall).
    rewrite Hpush in Hpush2. injection Hpush2 as <-.
    rewrite Heq, Hwin. split; [exact Hall|].
    rewrite Hfilter, filter_app_last.
    + eexists. reflexivity.
    + unfold window_in_range in Hw. unfold Qle, Qminus, Qplus, Qopp, inject_Z. cbn.
      nia.
Qed.






(** * Further properties of the program *)

(** ** The framer on any stream of groups *)

Lemma frames_among_cons (g : list (byte * Q)) (gs : list (list (byte * Q))) :
  frames_among (g :: gs) =
  (if Nat.eqb (length g) 15 then [map fst g] else []) ++ frames_among gs.
Proof.
  unfold frames_among. cbn [filter]. destruct (Nat.eqb (length g) 15); reflexivity.
Qed.

Lemma frames_among_app (gs gs' : list (list (byte * Q))) :
  frames_among (gs ++ gs') = frames_among gs ++ frames_among gs'.
Proof.
  unfold frames_among. rewrite filter_app, map_app. reflexivity.
Qed.

Lemma finalize_pending (g : list (byte * Q)) (last : option Q) (h : list (list byte)) :
  handled (finalize {| buffer := map fst g; last_byte_t := last; handled := h |}) =
  h ++ frames_among [g].
Proof.
  unfold finalize, frames_among, BYTES_PER_FRAME_RX. cbn [buffer handled filter].
  rewrite length_map. destruct (Nat.eqb (length g) 15); cbn [map]; [reflexivity|].
  rewrite app_nil_r. reflexivity.
Qed.

Lemma last_cons_default (l : list (list (byte * Q))) (d x : list (byte * Q)) :
  last (x :: l) d = last l x.
Proof.
  revert d x. induction l as [|y l IH]; intros d x; [reflexivity|].
  change (last (x :: y :: l) d) with (last (y :: l) d).
  rewrite (IH d y), (IH x y). reflexivity.
Qed.

(** After any number of separated groups the last one is pending and the
    frames among the earlier ones have been handed over. *)
Lemma groups_pending (rest : list (list Q * list (byte * Q))) :
  forall (g : list (byte * Q)) (h : list (list byte)),
    separated g rest ->
    fold_left observe
      (flat_map (fun ig => idle_obs (fst ig) ++ bytes_obs (snd ig)) rest)
      {| buffer := map fst g; last_byte_t := last_t g; handled := h |} =
    {| buffer := map fst (last (map snd rest) g);
       last_byte_t := last_t (last (map snd rest) g);
       handled := h ++ frames_among (removelast (g :: map snd rest)) |}.
Proof.
  induction rest as [|[idles g'] rest IH]; intros g h Hsep.
  - cbn. rewrite app_nil_r. reflexivity.
  - destruct Hsep as (Hb & Hgap & Hsep).
    cbn [flat_map fst snd]. rewrite fold_left_app.
    rewrite (group_after_gap idles _ g' Hb) by exact Hgap.
    rewrite finalize_pending, (IH g' _ Hsep).
    cbn [map snd]. rewrite (last_cons_default (map snd rest) g g').
    replace (removelast (g :: g' :: map snd rest))
      with ([g] ++ removelast (g' :: map snd rest)) by reflexivity.
    rewrite frames_among_app, app_assoc. reflexivity.
Qed.

(** X2. The frames handed over are exactly the groups of 15 bytes.  For
    any stream of groups, each a burst and each starting more than the
    threshold after the one before, with any idle rounds in the gaps:
    before the gap after the last group is observed the loop has handed
    over the 15-byte groups among all but the last, in order, the last
    being pending; once that gap is observed it has handed over the
    15-byte groups among all of them.  Groups of any other length, shorter
    or longer, are dropped whole. *)
Theorem framer_segments_by_gaps :
  forall (g1 : list (byte * Q)) (rest : list (list Q * list (byte * Q)))
         (idle : list Q) (now : Q),
    burst g1 ->
    separated g1 rest ->
    gap_after (last_t (last (map snd rest) g1)) now ->
    (forall reads : list read_outcome,
        timeline reads = groups_timeline g1 rest ->
        emitted reads = frames_among (removelast (g1 :: map snd rest))
        /\ buffer (fst (_reader_loop reads)) = map fst (last (map snd rest) g1))
    /\ (forall reads : list read_outcome,
           timeline reads = groups_timeline g1 rest ++ idle_obs idle ++ [Idle now] ->
           emitted reads = frames_among (g1 :: map snd rest)
           /\ buffer (fst (_reader_loop reads)) = []).
Proof.
  intros g1 rest idle now Hb Hsep Hgap.
  assert (Hpending :
            fold_left observe (groups_timeline g1 rest) reader_start =
            {| buffer := map fst (last (map snd rest) g1);
               last_byte_t := last_t (last (map snd rest) g1);
               handled := frames_among (removelast (g1 :: map snd rest)) |}).
  { unfold groups_timeline. rewrite fold_left_app, (first_group g1 Hb).
    exact (groups_pending rest g1 [] Hsep). }
  split.
  - intros reads Htl. unfold emitted, _reader_loop.
    rewrite reader_rounds_timeline, Htl, Hpending. split; reflexivity.
  - intros reads Htl. unfold emitted, _reader_loop.
    rewrite reader_rounds_timeline, Htl, fold_left_app, Hpending.
    rewrite (idle_after_gap idle _ now); [| |exact Hgap].
    + unfold flushed. rewrite finalize_pending. cbn [handled buffer fst].
      split; [|reflexivity].
      rewrite <- frames_among_app. f_equal.
      rewrite <- (last_cons_default (map snd rest) g1 g1).
      symmetry. apply (app_removelast_last (l := g1 :: map snd rest) g1).
      discriminate.
    + cbn [buffer]. intros Hnil.
      destruct (last (map snd rest) g1) as [|x l]; [|discriminate Hnil].
      exact Hgap.
Qed.

(** Two frames run together, then a frame on its own: only the latter is
    handed over. *)
Lemma framer_segments_by_gaps_witness :
  emitted [ReadOk (stamped 0 (sample_frame ++ other_frame)) 0.001;
           ReadOk [] 0.051;
           ReadOk (stamped 0.100 sample_frame) 0.101;
           ReadOk [] 0.151]
  = [sample_frame].
Proof.
  apply (proj2 (framer_segments_by_gaps
                  (stamped 0 (sample_frame ++ other_frame))
                  [([0.051%Q], stamped 0.100 sample_frame)] [] 0.151
                  ltac:(repeat split; cbv; congruence)
                  ltac:(repeat split; cbv; congruence)
                  ltac:(cbv; reflexivity))).
  reflexivity.
Defined.

(** ** Faults and the order of the frames *)

Lemma timeline_fault (reads rest : list read_outcome) :
  timeline (reads ++ ReadFault :: rest) = timeline reads.
Proof.
  induction reads as [|[chunk now|] reads IH]; [reflexivity| |reflexivity].
  cbn [List.app]. destruct chunk as [|bt chunk]; cbn [timeline]; rewrite IH; reflexivity.
Qed.

Lemma reader_rounds_fault (reads rest : list read_outcome) :
  forall r, snd (reader_rounds (reads ++ ReadFault :: rest) r) = true.
Proof.
  induction reads as [|[chunk now|] reads IH]; intros r; [reflexivity| |reflexivity].
  cbn [List.app reader_rounds]. apply IH.
Qed.

Lemma reader_rounds_flag (reads : list read_outcome) :
  forall r, snd (reader_rounds reads r) = true <-> In ReadFault reads.
Proof.
  induction reads as [|[chunk now|] reads IH]; intros r; cbn [reader_rounds snd].
  - split; [discriminate | intros []].
  - rewrite IH. split; [intros H; right; exact H|].
    intros [H|H]; [discriminate H | exact H].
  - split; [intros _; left; reflexivity | reflexivity].
Qed.

(** X3. A fault of [read] ends the loop.  The loop leaves through [except]
    exactly when one of the reads faults; the reads after the first fault
    are not processed: the frames handed over and the pending buffer are
    those of the reads before it, so bytes pending at the fault are never
    handed over. *)
Theorem reader_loop_stops_at_fault :
  (forall reads rest : list read_outcome,
      emitted (reads ++ ReadFault :: rest) = emitted reads
      /\ fst (_reader_loop (reads ++ ReadFault :: rest)) = fst (_reader_loop reads)
      /\ snd (_reader_loop (reads ++ ReadFault :: rest)) = true)
  /\ (forall reads : list read_outcome,
         snd (_reader_loop reads) = true <-> In ReadFault reads).
Proof.
  split.
  - intros reads rest. unfold emitted, _reader_loop.
    rewrite !reader_rounds_timeline, timeline_fault.
    repeat split. apply reader_rounds_fault.
  - intros reads. unfold _reader_loop. apply reader_rounds_flag.
Qed.

Lemma observe_extends (o : obs) (r : reader) :
  exists more, handled (observe r o) = handled r ++ more.
Proof.
  assert (Hfin : exists more, handled (finalize r) = handled r ++ more).
  { unfold finalize. cbn [handled].
    destruct (Nat.eqb (length (buffer r)) BYTES_PER_FRAME_RX).
    - eexists. reflexivity.
    - exists []. rewrite app_nil_r. reflexivity. }
  assert (Hsame : exists more : list (list byte), handled r = handled r ++ more)
    by (exists []; rewrite app_nil_r; reflexivity).
  destruct o as [b t | now]; cbn [observe].
  - unfold on_byte. destruct (gap_elapsed (last_byte_t r) t); cbn [handled]; assumption.
  - unfold on_idle.
    destruct (gap_elapsed (last_byte_t r) now && negb (Nat.eqb (length (buffer r)) 0));
      cbn [handled]; assumption.
Qed.

Lemma fold_observe_extends (tl : list obs) :
  forall r, exists more, handled (fold_left observe tl r) = handled r ++ more.
Proof.
  induction tl as [|o tl IH]; intros r.
  - exists []. rewrite app_nil_r. reflexivity.
  - cbn [fold_left]. destruct (IH (observe r o)) as [m2 H2].
    destruct (observe_extends o r) as [m1 H1].
    exists (m1 ++ m2). rewrite H2, H1, app_assoc. reflexivity.
Qed.

Lemma timeline_app (reads later : list read_outcome) :
  exists tl, timeline (reads ++ later) = timeline reads ++ tl.
Proof.
  induction reads as [|[chunk now|] reads [tl IH]].
  - exists (timeline later). reflexivity.
  - exists tl. cbn [List.app].
    destruct chunk as [|bt chunk]; cbn [timeline]; rewrite IH; [reflexivity|].
    rewrite app_assoc. reflexivity.
  - exists []. reflexivity.
Qed.

(** X4. Frames are handed over in the order of the stream and never taken
    back: what the loop has handed over after some reads is a prefix of
    what it has handed over after any further reads, so the frames so far
    do not depend on what arrives later. *)
Theorem emitted_grows_by_prefix (reads later : list read_outcome) :
  exists more, emitted (reads ++ later) = emitted reads ++ more.
Proof.
  rewrite !emitted_timeline. destruct (timeline_app reads later) as [tl ->].
  rewrite fold_left_app. apply fold_observe_extends.
Qed.

(** ** The frame codec both ways *)

Lemma pack_unpack_field (c : fmt_code) (bs : list byte) :
  (code_size c <= length bs)%nat ->
  0 <= unpack_field c bs <= code_max c
  /\ pack_field c (unpack_field c bs) ++ skipn (code_size c) bs = bs.
Proof.
  intros Hlen. destruct c; cbn [code_size code_max] in *.
  - destruct bs as [|b bs]; [cbn in Hlen; lia|].
    cbn [unpack_field nth pack_field skipn List.app].
    split; [apply byte_val_range | rewrite byte_of_val; reflexivity].
  - destruct bs as [|hi [|lo bs]]; [cbn in Hlen; lia | cbn in Hlen; lia |].
    rewrite unpack_H_bytes, pack_H_bytes. cbn [skipn List.app].
    pose proof (byte_val_range hi) as Hhi. pose proof (byte_val_range lo) as Hlo.
    split; [lia|].
    replace ((256 * byte_val hi + byte_val lo) / 256) with (byte_val hi)
      by (apply Z.div_unique with (byte_val lo); lia).
    replace ((256 * byte_val hi + byte_val lo) mod 256) with (byte_val lo)
      by (apply Z.mod_unique with (byte_val hi); lia).
    rewrite !byte_of_val. reflexivity.
Qed.

(** Packing the fields read from a buffer of the right size gives the
    buffer back. *)
Lemma pack_read_fields (fmt : list fmt_code) :
  forall bs, length bs = calcsize fmt -> struct_pack fmt (read_fields fmt bs) = Ret bs.
Proof.
  induction fmt as [|c fmt IH]; intros bs Hlen; cbn [calcsize] in Hlen.
  - destruct bs; [reflexivity | discriminate Hlen].
  - cbn [read_fields].
    destruct (pack_unpack_field c bs ltac:(lia)) as [Hr Hb].
    rewrite struct_pack_cons by exact Hr.
    rewrite (IH (skipn (code_size c) bs)) by (rewrite length_skipn; lia).
    cbn [bind]. rewrite Hb. reflexivity.
Qed.

Lemma decode_frame_fields (frame : list byte) (s : sample) :
  decode_frame frame = Some s ->
  struct_unpack RX_FORMAT frame = Ret (fields s).
Proof.
  unfold decode_frame.
  destruct (negb (Nat.eqb (length frame) BYTES_PER_FRAME_RX)); [discriminate|].
  destruct (struct_unpack RX_FORMAT frame) as [vals|e]; [|discriminate].
  do 8 (destruct vals as [|? vals]; [discriminate|]).
  destruct vals; [|discriminate].
  intros [= <-]. reflexivity.
Qed.

Lemma decode_frame_pack (frame : list byte) (s : sample) :
  decode_frame frame = Some s -> struct_pack RX_FORMAT (fields s) = Ret frame.
Proof.
  intros Hd. pose proof (decode_frame_fields frame s Hd) as Hu.
  pose proof (struct_unpack_length _ _ _ Hu) as Hlen.
  unfold struct_unpack in Hu. rewrite Hlen, Nat.eqb_refl in Hu.
  assert (Hf : read_fields RX_FORMAT frame = fields s) by congruence.
  rewrite <- Hf. apply pack_read_fields. exact Hlen.
Qed.

(** X5. Decoding loses nothing.  [struct.pack] undoes [struct.unpack] on
    every buffer of the size of the format; packing the fields decoded
    from a frame with the RX format gives the frame back, byte for byte,
    so that two different frames never show the same eight values; and
    the frame that packs from eight fields decodes to them. *)
Theorem decode_frame_round_trip :
  (forall (fmt : list fmt_code) (bs : list byte) (vals : list Z),
      struct_unpack fmt bs = Ret vals -> struct_pack fmt vals = Ret bs)
  /\ (forall (frame : list byte) (s : sample),
         decode_frame frame = Some s -> struct_pack RX_FORMAT (fields s) = Ret frame)
  /\ (forall (f1 f2 : list byte) (s : sample),
         decode_frame f1 = Some s -> decode_frame f2 = Some s -> f1 = f2)
  /\ (forall (s : sample) (frame : list byte),
         struct_pack RX_FORMAT (fields s) = Ret frame -> decode_frame frame = Some s).
Proof.
  split; [|split; [|split]].
  - intros fmt bs vals Hu. pose proof (struct_unpack_length _ _ _ Hu) as Hlen.
    unfold struct_unpack in Hu. rewrite Hlen, Nat.eqb_refl in Hu.
    assert (Hf : read_fields fmt bs = vals) by congruence.
    rewrite <- Hf. apply pack_read_fields. exact Hlen.
  - exact decode_frame_pack.
  - intros f1 f2 s H1 H2.
    apply decode_frame_pack in H1. apply decode_frame_pack in H2. congruence.
  - intros s frame Hp. unfold decode_frame.
    rewrite (struct_pack_length _ _ _ Hp), (struct_unpack_pack _ _ _ Hp).
    destruct s; reflexivity.
Qed.

(** ** [be_u16] *)

Lemma be_u16_pair (hi lo : byte) :
  be_u16 [hi; lo] = Ret (256 * byte_val hi + byte_val lo).
Proof.
  unfold be_u16, struct_unpack. cbn [length calcsize code_size Nat.add Nat.eqb bind read_fields].
  rewrite unpack_H_bytes. reflexivity.
Qed.

Lemma be_u16_wrong_length (b : list byte) :
  length b <> 2%nat -> be_u16 b = Raise StructError.
Proof.
  intros Hlen. unfold be_u16, struct_unpack.
  change (calcsize [fmt_H]) with 2%nat.
  apply Nat.eqb_neq in Hlen. rewrite Hlen. reflexivity.
Qed.

(** X6. [be_u16] decodes exactly two bytes, high byte first.  On two bytes
    it returns [256 * hi + lo]; on a buffer of any other length it raises
    [struct.error]; what it returns is in [0, 65535] and determines the
    two bytes; it undoes the packing of an unsigned short; and the seven
    16-bit fields [_handle_frame] unpacks from a frame are [be_u16] of the
    slices [1:3], [3:5], ..., [13:15] that the source lists. *)
Theorem be_u16_two_bytes_big_endian :
  (forall hi lo : byte, be_u16 [hi; lo] = Ret (256 * byte_val hi + byte_val lo))
  /\ (forall b : list byte, length b <> 2%nat -> be_u16 b = Raise StructError)
  /\ (forall (b : list byte) (v : Z),
         be_u16 b = Ret v ->
         0 <= v <= 65535 /\ b = [byte_of (v / 256); byte_of (v mod 256)])
  /\ (forall v : Z, 0 <= v <= 65535 -> be_u16 (pack_field fmt_H v) = Ret v)
  /\ (forall (frame : list byte) (s : sample),
         decode_frame frame = Some s ->
         be_u16 (slice2 1 frame) = Ret (height_setpoint s)
         /\ be_u16 (slice2 3 frame) = Ret (height_measured s)
         /\ be_u16 (slice2 5 frame) = Ret (flight_time_avg s)
         /\ be_u16 (slice2 7 frame) = Ret (temperature s)
         /\ be_u16 (slice2 9 frame) = Ret (valve_setpoint s)
         /\ be_u16 (slice2 11 frame) = Ret (valve_position s)
         /\ be_u16 (slice2 13 frame) = Ret (fan_duty s)).
Proof.
  split; [|split; [|split; [|split]]].
  - exact be_u16_pair.
  - exact be_u16_wrong_length.
  - intros b v Hb.
    destruct (Nat.eq_dec (length b) 2) as [Hlen|Hlen];
      [|rewrite (be_u16_wrong_length b Hlen) in Hb; discriminate Hb].
    destruct b as [|hi [|lo [|x b]]]; try discriminate Hlen.
    rewrite be_u16_pair in Hb.
    assert (Hv : v = 256 * byte_val hi + byte_val lo) by congruence.
    destruct (pack_unpack_field fmt_H [hi; lo] ltac:(cbn; lia)) as [Hr Hp].
    rewrite unpack_H_bytes, pack_H_bytes in Hp. rewrite unpack_H_bytes in Hr.
    cbn [code_max code_size skipn List.app] in Hr, Hp. rewrite <- Hv in Hr, Hp.
    split; [exact Hr | symmetry; exact Hp].
  - intros v Hv. rewrite pack_H_bytes, be_u16_pair.
    assert (0 <= v / 256 < 256)
      by (split; [apply Z.div_pos; lia | apply Z.div_lt_upper_bound; lia]).
    pose proof (Z.mod_pos_bound v 256 ltac:(lia)) as Hm.
    rewrite !byte_val_of by lia.
    pose proof (Z.div_mod v 256 ltac:(lia)). f_equal. lia.
  - intros frame s Hd. pose proof (decode_frame_length _ _ Hd) as Hlen.
    do 15 (destruct frame as [|? frame]; [discriminate Hlen|]).
    destruct frame; [|discriminate Hlen].
    rewrite decode_frame_bytes in Hd.
    match type of Hd with Some ?r = _ => assert (Hs : s = r) by congruence end.
    subst s. unfold slice2. cbn [skipn firstn].
    rewrite !be_u16_pair. repeat split.
Qed.

(** ** The percentages stored for the plot *)

Lemma pct_range_duty_ok : pct_range_ok MAX_DUTY_RAW 65536 = true.
Proof. vm_compute. reflexivity. Qed.

Lemma pct_range_valve_ok : pct_range_ok MAX_VALVE_STEPS 65536 = true.
Proof. vm_compute. reflexivity. Qed.

Lemma pct_range_ok_spec (max_raw : Z) (count : N) :
  pct_range_ok max_raw count = true ->
  forall raw, 0 <= raw < Z.of_N count -> pct_entry_ok max_raw raw = true.
Proof.
  unfold pct_range_ok.
  set (f := fun st : Z * bool => (fst st + 1, snd st && pct_entry_ok max_raw (fst st))).
  assert (Hiter : forall n,
             fst (N.iter n f (0, true)) = Z.of_N n
             /\ (snd (N.iter n f (0, true)) = true ->
                 forall raw, 0 <= raw < Z.of_N n -> pct_entry_ok max_raw raw = true)).
  { induction n as [|n [Hfst Hsnd]] using N.peano_ind.
    - split; [reflexivity|]. intros _ raw Hraw. cbn in Hraw. lia.
    - rewrite N.iter_succ. unfold f at 1. unfold f at 2. cbn [fst snd].
      rewrite Hfst. split; [lia|].
      intros Hok raw Hraw. apply andb_true_iff in Hok. destruct Hok as [Hprev Hlast].
      destruct (Z.eq_dec raw (Z.of_N n)) as [->|Hne]; [rewrite <- Hfst; exact Hlast|].
      apply (Hsnd Hprev). lia. }
  intros Hok. exact (proj2 (Hiter count) Hok).
Qed.

Lemma pct_range_lookup (max_raw raw : Z) :
  pct_range_ok max_raw 65536 = true ->
  0 <= raw <= 65535 ->
  within_axis (raw_to_pct raw max_raw) = (raw <=? max_raw).
Proof.
  intros Hok Hraw. apply eqb_prop.
  apply (pct_range_ok_spec max_raw 65536 Hok). cbn. lia.
Qed.

(** X7. The percentages [_handle_frame] stores for the lower plot, computed
    in binary64 as [(raw / max) * 100.0], lie within the limits 0 and 100
    of its axis exactly when the raw value is within its scale: for every
    16-bit duty against 1023 and every 16-bit valve position against 420,
    zero gives 0.0 and the full scale gives exactly 100.0. *)
Theorem plotted_percentages_within_axis :
  forall raw max_raw : Z,
    max_raw = MAX_DUTY_RAW \/ max_raw = MAX_VALVE_STEPS ->
    0 <= raw <= 65535 ->
    (within_axis (raw_to_pct raw max_raw) = true <-> raw <= max_raw)
    /\ raw_to_pct 0 max_raw = 0%float
    /\ raw_to_pct max_raw max_raw = 100%float.
Proof.
  intros raw max_raw Hmax Hraw.
  assert (Hok : pct_range_ok max_raw 65536 = true)
    by (destruct Hmax as [-> | ->]; [exact pct_range_duty_ok | exact pct_range_valve_ok]).
  split.
  - rewrite (pct_range_lookup max_raw raw Hok Hraw). apply Z.leb_le.
  - destruct Hmax as [-> | ->]; split; vm_compute; reflexivity.
Qed.

(** A duty of 1024 counts, one above the scale, is off the axis. *)
Lemma plotted_percentages_witness :
  (within_axis (raw_to_pct 1024 MAX_DUTY_RAW) = true <-> 1024 <= MAX_DUTY_RAW)
  /\ raw_to_pct 0 MAX_DUTY_RAW = 0%float
  /\ raw_to_pct MAX_DUTY_RAW MAX_DUTY_RAW = 100%float.
Proof.
  apply (plotted_percentages_within_axis 1024 MAX_DUTY_RAW).
  - left. reflexivity.
  - lia.
Defined.

(** ** Errors on the command path *)




(** ** The plot window entry *)

Lemma apply_window_clamp (a : BolaNoTuboApp) (val : Z) :
  window_seconds_var (entries a) = Some val ->
  _apply_window_seconds a = with_window_seconds (clamp val 5 600) a.
Proof.
  intros Hv. unfold _apply_window_seconds. rewrite Hv. cbn [intvar_get].
  f_equal. unfold clamp.
  destruct (Z.ltb_spec val 5); destruct (Z.ltb_spec 600 val);
    destruct (Z.ltb_spec 600 5); lia.
Qed.

(** X9. [_apply_window_seconds] takes the window entry into [5, 600].  An
    integer entry sets [window_seconds] to that integer clamped to
    [5, 600] and changes nothing else; an entry that is not an integer
    leaves the application as it is; applying twice is applying once; the
    history is not touched (points are evicted by the next frame only);
    and in every state the application reaches the window in force is
    within [5, 600]. *)
Theorem apply_window_seconds_clamps :
  (forall (a : BolaNoTuboApp) (val : Z),
      window_seconds_var (entries a) = Some val ->
      _apply_window_seconds a = with_window_seconds (clamp val 5 600) a
      /\ 5 <= window_seconds (_apply_window_seconds a) <= 600
      /\ (5 <= val <= 600 -> window_seconds (_apply_window_seconds a) = val))
  /\ (forall a : BolaNoTuboApp,
         window_seconds_var (entries a) = None -> _apply_window_seconds a = a)
  /\ (forall a : BolaNoTuboApp,
         _apply_window_seconds (_apply_window_seconds a) = _apply_window_seconds a
         /\ hist (_apply_window_seconds a) = hist a
         /\ conn (_apply_window_seconds a) = conn a
         /\ entries (_apply_window_seconds a) = entries a)
  /\ (forall (acts : list action) (a : BolaNoTuboApp),
         run acts init_app = Ret a -> 5 <= window_seconds a <= 600).
Proof.
  split; [|split; [|split]].
  - intros a val Hv. rewrite (apply_window_clamp a val Hv).
    split; [reflexivity|]. cbn [with_window_seconds window_seconds].
    unfold clamp. split; lia.
  - intros a Hv. unfold _apply_window_seconds. rewrite Hv. reflexivity.
  - intros a. destruct (window_seconds_var (entries a)) as [val|] eqn:Hv.
    + rewrite (apply_window_clamp a val Hv).
      rewrite (apply_window_clamp (with_window_seconds (clamp val 5 600) a) val)
        by exact Hv.
      repeat split.
    + unfold _apply_window_seconds. rewrite Hv. cbn [intvar_get]. rewrite Hv.
      repeat split.
  - intros acts a Hrun.
    exact (run_invariant window_in_range window_in_range_step acts init_app a
             window_in_range_init Hrun).
Qed.

(** ** The newest sample *)

(** A reading that is not older than [tmin] at the back of the time axis
    stops the eviction loop at the latest: the loop removes [k] of the
    points before it and leaves the last point of every deque. *)
Lemma evict_keeps_newest (tmin now : Q) (x y : Z) (u v : float) (ts : list Q) :
  Qltb now tmin = false ->
  forall (sp meas : list Z) (duty valve : list float),
    length sp = length ts -> length meas = length ts ->
    length duty = length ts -> length valve = length ts ->
    exists k, (k <= length ts)%nat
      /\ evict tmin (ts ++ [now]) (sp ++ [x]) (meas ++ [y]) (duty ++ [u]) (valve ++ [v]) =
         Ret {| t_hist := skipn k ts ++ [now];
                sp_height_hist := skipn k sp ++ [x];
                meas_height_hist := skipn k meas ++ [y];
                duty_pct_hist := skipn k duty ++ [u];
                valve_pct_hist := skipn k valve ++ [v] |}.
Proof.
  intros Hnow.
  induction ts as [|t0 ts IH]; intros sp meas duty valve Hsp Hmeas Hduty Hvalve.
  - destruct sp; [|discriminate Hsp]. destruct meas; [|discriminate Hmeas].
    destruct duty; [|discriminate Hduty]. destruct valve; [|discriminate Hvalve].
    exists 0%nat. split; [reflexivity|]. cbn [List.app evict]. rewrite Hnow. reflexivity.
  - destruct sp as [|x0 sp]; [discriminate Hsp|].
    destruct meas as [|y0 meas]; [discriminate Hmeas|].
    destruct duty as [|u0 duty]; [discriminate Hduty|].
    destruct valve as [|v0 valve]; [discriminate Hvalve|].
    cbn [length] in Hsp, Hmeas, Hduty, Hvalve.
    cbn [List.app evict]. destruct (Qltb t0 tmin).
    + cbn [popleft bind].
      destruct (IH sp meas duty valve) as (k & Hk & Hev); try lia.
      exists (S k). split; [cbn [length]; lia | exact Hev].
    + exists 0%nat. split; [cbn [length]; lia | reflexivity].
Qed.

Lemma window_start_not_after (now : Q) (window : Z) :
  0 <= window -> Qltb now (now - inject_Z window) = false.
Proof.
  intros Hw. unfold Qltb. apply negb_false_iff, Qle_bool_iff.
  assert (Hq : (0 <= inject_Z window)%Q) by (unfold Qle; cbn; lia).
  lra.
Qed.

(** X10. A sample is never evicted by its own push.  In every state the
    application reaches, whatever the clock reads when the next frame is
    handled (also a reading older than the ones held), a frame of 15 bytes
    is handled without an exception, the readouts show its fields, [k] of
    the points held before are removed from the front of every deque, the
    decoded sample is the last point of every deque, and the history is
    not empty, so that [_update_plots] has data to draw. *)
Theorem newest_sample_is_kept :
  forall (acts : list action) (a : BolaNoTuboApp) (now : Q) (frame : list byte)
         (s : sample),
    run acts init_app = Ret a ->
    decode_frame frame = Some s ->
    exists (a' : BolaNoTuboApp) (k : nat),
      _handle_frame now frame a = Ret a'
      /\ (k <= length (t_hist (hist a)))%nat
      /\ t_hist (hist a') = skipn k (t_hist (hist a)) ++ [now]
      /\ sp_height_hist (hist a') =
         skipn k (sp_height_hist (hist a)) ++ [height_setpoint s]
      /\ meas_height_hist (hist a') =
         skipn k (meas_height_hist (hist a)) ++ [height_measured s]
      /\ duty_pct_hist (hist a') =
         skipn k (duty_pct_hist (hist a)) ++ [raw_to_pct (fan_duty s) MAX_DUTY_RAW]
      /\ valve_pct_hist (hist a') =
         skipn k (valve_pct_hist (hist a)) ++ [raw_to_pct (valve_position s) MAX_VALVE_STEPS]
      /\ rx a' = rx (set_rx_vars s a)
      /\ exists p : plot_data,
           _update_plots a' = Some p
           /\ length (x_axis p) = S (length (t_hist (hist a)) - k).
Proof.
  intros acts a now frame s Hrun Hd.
  destruct (run_aligned acts init_app aligned_init) as (a0 & Hrun0 & Ha).
  assert (a0 = a) by congruence. subst a0.
  pose proof (run_invariant window_in_range window_in_range_step acts init_app a
                window_in_range_init Hrun) as Hw.
  unfold window_in_range in Hw. destruct Ha as (H1 & H2 & H3 & H4).
  destruct (evict_keeps_newest (now - inject_Z (window_seconds a))%Q now
              (height_setpoint s) (height_measured s)
              (raw_to_pct (fan_duty s) MAX_DUTY_RAW)
              (raw_to_pct (valve_position s) MAX_VALVE_STEPS)
              (t_hist (hist a)) (window_start_not_after now (window_seconds a) ltac:(lia))
              (sp_height_hist (hist a)) (meas_height_hist (hist a))
              (duty_pct_hist (hist a)) (valve_pct_hist (hist a)) H1 H2 H3 H4)
    as (k & Hk & Hev).
  unfold _handle_frame. rewrite Hd. unfold push_history.
  cbn [set_rx_vars with_rx hist window_seconds]. rewrite Hev. cbn [bind].
  eexists. exists k.
  split; [reflexivity|]. split; [exact Hk|].
  cbn [with_hist hist t_hist sp_height_hist meas_height_hist duty_pct_hist
       valve_pct_hist rx].
  repeat (split; [reflexivity|]).
  unfold _update_plots. cbn [with_hist hist t_hist].
  destruct (skipn k (t_hist (hist a)) ++ [now]) as [|t0 ts] eqn:Hts.
  - apply (f_equal (@length Q)) in Hts. rewrite length_app in Hts. cbn in Hts. lia.
  - eexists. split; [reflexivity|]. cbn [x_axis].
    rewrite length_map, <- Hts, length_app, length_skipn. cbn [length]. lia.
Qed.

(** A frame handled at an earlier reading than the one held: the older
    sample comes last. *)
Lemma newest_sample_witness :
  exists (a a' : BolaNoTuboApp) (k : nat),
    run [Frame 100 zero_frame] init_app = Ret a
    /\ _handle_frame 3 sample_frame a = Ret a'
    /\ (k <= length (t_hist (hist a)))%nat
    /\ t_hist (hist a') = skipn k (t_hist (hist a)) ++ [3%Q].
Proof.
  eexists.
  destruct (newest_sample_is_kept [Frame 100 zero_frame] _ 3%Q sample_frame _
              ltac:(vm_compute; reflexivity) ltac:(vm_compute; reflexivity))
    as (a' & k & Hh & Hk & Ht & _).
  exists a', k. split; [vm_compute; reflexivity|].
  split; [exact Hh|]. split; [exact Hk | exact Ht].
Defined.

(** ** The session over any run *)

Lemma step_main_loop_effect (a : BolaNoTuboApp) (act : action) :
  (forall now frame, act <> Frame now frame) ->
  exists a', step a act = Ret a' /\ main_loop_effect a a'.
Proof.
  intros Hact.
  destruct act as [now frame|e|alive fault|fault|fault| |alive fault|alive fault];
    cbn [step].
  - elim (Hact now frame). reflexivity.
  - effect_found.
  - unfold _toggle_connection. destruct (connected a) eqn:Hc.
    + rewrite disconnect_returns. effect_found.
    + effect_found.
  - unfold _send_current_command, callback.
    destruct (intvar_get (sp_height_var (entries a))) as [h|]; cbn [bind try_except];
      [|effect_found].
    destruct (intvar_get (sp_valve_var (entries a))) as [v|]; cbn [bind try_except];
      [|effect_found].
    destruct (intvar_get (sp_duty_var (entries a))) as [d|]; cbn [bind try_except];
      [|effect_found].
    destruct (build_command (mode_combo (entries a)) h v d) as [payload|] eqn:Hb;
      cbn [bind try_except]; [|effect_found].
    eexists. split; [reflexivity|]. exact (ml_command a fault h v d payload Hb).
  - unfold _send_reset, callback.
    change (struct_pack TX_FORMAT [3; 0; 0; 0])
      with (@Ret (list byte) [x03; x00; x00; x00; x00; x00; x00]).
    cbn [bind try_except]. eexists. split; [reflexivity|]. apply ml_reset.
  - effect_found.
  - rewrite disconnect_returns. effect_found.
  - rewrite disconnect_returns, torn_down_status. effect_found.
Qed.

Section MainLoopInvariant.

Variable P : BolaNoTuboApp -> Prop.
Hypothesis P_conn_ui : forall a a', conn a' = conn a -> ui a' = ui a -> P a -> P a'.
Hypothesis P_effect : forall a a', P a -> main_loop_effect a a' -> P a'.

(** A property of the connection and the widgets that the callbacks of
    the main loop keep holds after every run. *)
Lemma run_main_loop_invariant :
  forall acts a a', P a -> run acts a = Ret a' -> P a'.
Proof.
  apply run_invariant. intros a act a' Ha Hstep.
  destruct (action_frame_or_other act) as [(now & frame & ->) | Hother].
  - cbn [step] in Hstep. destruct (handle_frame_frame _ _ _ _ Hstep) as (Hc & Hu & _).
    exact (P_conn_ui a a' Hc Hu Ha).
  - destruct (step_main_loop_effect a act Hother) as (a1 & Hs & Heff).
    assert (a1 = a') by congruence. subst a1. exact (P_effect a a' Ha Heff).
Qed.

End MainLoopInvariant.

(** The three ways out of [_connect]. *)
Lemma connect_cases (fault : bool) (a : BolaNoTuboApp) :
  _connect fault a = show_dialog WarnSelectPort a
  \/ (exists p, p <> EmptyString
        /\ _connect fault a =
           set_status (StatusConnected p BAUDRATE)
             (set_connect_btn BtnDisconnect
                (set_reader_thread (Some ReaderThread)
                   (set_reader_alive true
                      (set_ser (Some {| port := p; is_open := true; written := [] |}) a)))))
  \/ _connect fault a =
     set_status StatusDisconnected
       (set_connect_btn BtnConnect (set_ser None (show_dialog ErrConnection a))).
Proof.
  unfold _connect. destruct (port_combo (entries a)) as [|c p] eqn:Hp.
  - left. reflexivity.
  - unfold serial_open. destruct fault.
    + right. right. reflexivity.
    + right. left. exists (String c p). split; [discriminate | reflexivity].
Qed.

(** The three ways out of [_send] for a payload of seven bytes. *)
Lemma send_cases (fault : bool) (payload : list byte) (a : BolaNoTuboApp) :
  length payload = 7%nat ->
  _send fault payload a = show_dialog WarnNotConnected a
  \/ _send fault payload a = show_dialog ErrTx a
  \/ (exists s, ser (conn a) = Some s /\ is_open s = true
        /\ _send fault payload a =
           set_status (StatusSent payload)
             (set_ser (Some {| port := port s; is_open := is_open s;
                               written := written s ++ [payload] |}) a)).
Proof.
  intros Hlen. unfold _send. destruct (ser (conn a)) as [s|] eqn:Hs; [|left; reflexivity].
  destruct (is_open s) eqn:Ho; cbn [negb]; [|left; reflexivity].
  unfold BYTES_PER_FRAME_TX. rewrite Hlen. cbn [Nat.eqb negb].
  unfold serial_write. destruct fault.
  - right. left. reflexivity.
  - right. right. exists s. rewrite Ho. auto.
Qed.

Lemma build_command_in_range (mode_idx h v d : Z) (payload : list byte) :
  build_command mode_idx h v d = Ret payload -> command_in_range payload.
Proof.
  intros Hb.
  destruct (build_command_fields mode_idx h v d)
    as (sp_v & sp_d & _ & Hrv & _ & Hrd & Hp).
  unfold MAX_VALVE_STEPS in Hrv. unfold MAX_DUTY_RAW in Hrd.
  rewrite Hp in Hb. destruct (struct_pack_tx_inv _ _ Hb) as [Hlen Hun].
  unfold TX_FORMAT in Hb. apply struct_pack_inv in Hb. destruct Hb as [Hm _].
  cbn [code_max] in Hm.
  pose proof (clamp_range h 0 500 ltac:(lia)) as Hh.
  split; [exact Hlen|].
  exists (Z.max 0 mode_idx), (clamp h 0 500), sp_v, sp_d. auto.
Qed.

Lemma reset_in_range : command_in_range [x03; x00; x00; x00; x00; x00; x00].
Proof.
  split; [reflexivity|]. exists 3, 0, 0, 0. split; [reflexivity|]. lia.
Qed.

Lemma effect_payload_cases (a a' : BolaNoTuboApp) :
  main_loop_effect a a' ->
  a' = a
  \/ (exists e, a' = with_entries e a)
  \/ (exists fault, connected a = false /\ a' = _connect fault a)
  \/ a' = torn_down a
  \/ (exists fault payload, command_in_range payload /\ a' = _send fault payload a)
  \/ a' = _apply_window_seconds a.
Proof.
  destruct 1 as [|e|fault Hc| |fault h v d payload Hb|fault|].
  - auto.
  - right. left. eauto.
  - right. right. left. eauto.
  - right. right. right. left. reflexivity.
  - right. right. right. right. left. exists fault, payload.
    split; [exact (build_command_in_range _ _ _ _ _ Hb) | reflexivity].
  - right. right. right. right. left. eexists. eexists.
    split; [exact reset_in_range | reflexivity].
  - right. right. right. right. right. reflexivity.
Qed.

Lemma apply_window_conn_ui (a : BolaNoTuboApp) :
  conn (_apply_window_seconds a) = conn a /\ ui (_apply_window_seconds a) = ui a.
Proof.
  unfold _apply_window_seconds.
  destruct (intvar_get (window_seconds_var (entries a))); split; reflexivity.
Qed.


Lemma port_log_effect (a a' : BolaNoTuboApp) :
  port_log_in_range a /\ no_size_error a -> main_loop_effect a a' ->
  port_log_in_range a' /\ no_size_error a'.
Proof.
  intros [Hlog Hdlg] Heff. unfold port_log_in_range, no_size_error in *.
  destruct (effect_payload_cases a a' Heff)
    as [-> | [(e & ->) | [(fault & Hc & ->) | [-> | [(fault & payload & Hr & ->) | ->]]]]].
  - auto.
  - auto.
  - destruct (connect_cases fault a) as [-> | [(p & Hp & ->) | ->]]; cbn.
    + split; [exact Hlog|]. rewrite in_app_iff. intros [H|[H|[]]]; [auto | discriminate H].
    + split; [constructor | exact Hdlg].
    + split; [exact I|]. rewrite in_app_iff. intros [H|[H|[]]]; [auto | discriminate H].
  - cbn. split; [exact I | exact Hdlg].
  - destruct (send_cases fault payload a (proj1 Hr)) as [-> | [-> | (s & Hs & Ho & ->)]]; cbn.
    + split; [exact Hlog|]. rewrite in_app_iff. intros [H|[H|[]]]; [auto | discriminate H].
    + split; [exact Hlog|]. rewrite in_app_iff. intros [H|[H|[]]]; [auto | discriminate H].
    + rewrite Hs in Hlog. split; [|exact Hdlg].
      apply Forall_app. split; [exact Hlog | constructor; [exact Hr | constructor]].
  - destruct (apply_window_conn_ui a) as [-> ->]. auto.
Qed.



Lemma port_log_run (acts : list action) (a : BolaNoTuboApp) :
  run acts init_app = Ret a -> port_log_in_range a /\ no_size_error a.
Proof.
  apply (run_main_loop_invariant (fun a => port_log_in_range a /\ no_size_error a)).
  - intros a0 a1 Hc Hu H0. unfold port_log_in_range, no_size_error in *.
    rewrite Hc, Hu. exact H0.
  - exact port_log_effect.
  - split; [exact I | intros []].
Qed.

(** X12. The controller is never sent a setpoint out of range.  In every
    state the application reaches, every payload that has been written to
    the attached port has seven bytes and unpacks to a mode byte, a height
    of at most 500 mm, a valve setpoint of at most 420 steps and a fan
    duty of at most 1023 counts, whatever the operator typed into the
    entries. *)
Theorem port_receives_commands_in_range :
  forall (acts : list action) (a : BolaNoTuboApp) (s : serial_port),
    run acts init_app = Ret a ->
    ser (conn a) = Some s ->
    Forall command_in_range (written s).
Proof.
  intros acts a s Hrun Hs.
  destruct (port_log_run acts a Hrun) as [Hlog _].
  unfold port_log_in_range in Hlog. rewrite Hs in Hlog. exact Hlog.
Qed.

Lemma port_receives_commands_witness :
  exists a s, run session_example init_app = Ret a
    /\ ser (conn a) = Some s
    /\ written s = [[x02; x00; xfa; x00; xd2; x01; x52];
                    [x03; x00; x00; x00; x00; x00; x00]]
    /\ Forall command_in_range (written s).
Proof.
  eexists. eexists. split; [vm_compute; reflexivity|].
  split; [reflexivity|]. split; [reflexivity|].
  apply (port_receives_commands_in_range session_example _ _
           ltac:(vm_compute; reflexivity) eq_refl).
Defined.

(** X13. The size error of [_send] is never shown.  In no state the
    application reaches has the dialog of the frame size test been raised:
    the two callers of [_send] hand it payloads of seven bytes only, so
    the test of line 391 never fails in the program. *)
Theorem tx_size_error_never_shown :
  forall (acts : list action) (a : BolaNoTuboApp),
    run acts init_app = Ret a ->
    ~ In ErrTxFrameSize (dialogs (ui a)).
Proof.
  intros acts a Hrun. exact (proj2 (port_log_run acts a Hrun)).
Qed.

Lemma tx_size_error_witness :
  exists a, run (SendCommand false :: session_example) init_app = Ret a
    /\ dialogs (ui a) = [WarnNotConnected]
    /\ ~ In ErrTxFrameSize (dialogs (ui a)).
Proof.
  eexists. split; [vm_compute; reflexivity|]. split; [reflexivity|].
  apply (tx_size_error_never_shown (SendCommand false :: session_example) _
           ltac:(vm_compute; reflexivity)).
Defined.

(** ** The time axis of the plot *)

Lemma sorted_le_last (l : list Q) (x : Q) :
  StronglySorted Qle (l ++ [x]) -> Forall (fun t => (t <= x)%Q) (l ++ [x]).
Proof.
  induction l as [|y l IH]; cbn [List.app]; intros Hs.
  - constructor; [apply Qle_refl | constructor].
  - apply StronglySorted_tail in Hs. destruct Hs as [Hs Hall].
    constructor; [|exact (IH Hs)].
    apply Forall_app in Hall. destruct Hall as [_ Hx]. inversion Hx; assumption.
Qed.

Lemma py_max_le (x y w : Q) : (x <= w)%Q -> (y <= w)%Q -> (py_max x y <= w)%Q.
Proof. intros Hx Hy. unfold py_max. destruct (Qltb x y); assumption. Qed.

Lemma py_max_ge_first (x y : Q) : (x <= py_max x y)%Q.
Proof.
  unfold py_max, Qltb. destruct (Qle_bool y x) eqn:Hle; cbn [negb]; [apply Qle_refl|].
  destruct (Qlt_le_dec x y) as [Hlt|Hge]; [apply Qlt_le_weak; exact Hlt|].
  apply Qle_bool_iff in Hge. congruence.
Qed.

Lemma py_max_list_le (w : Q) (xs : list Q) :
  forall x0, (x0 <= w)%Q -> Forall (fun x => (x <= w)%Q) xs -> (py_max_list x0 xs <= w)%Q.
Proof.
  unfold py_max_list. induction xs as [|x xs IH]; intros x0 H0 Hall; [exact H0|].
  cbn [fold_left]. inversion Hall; subst. apply IH; [apply py_max_le|]; assumption.
Qed.

(** X14. The plot never shows more than the window.  After a frame of 15
    bytes handled at the end of a run whose clock readings never decrease,
    the time axis [_update_plots] hands to the lines starts at 0 and every
    point of it lies between 0 and the window length in force; the upper
    limit it sets on the axis, [max(5, max(x))], lies between 5 and the
    window length. *)
Theorem plot_axis_within_window :
  forall (acts : list action) (now : Q) (frame : list byte) (a' : BolaNoTuboApp)
         (p : plot_data),
    chronological (acts ++ [Frame now frame]) ->
    length frame = 15%nat ->
    run (acts ++ [Frame now frame]) init_app = Ret a' ->
    _update_plots a' = Some p ->
    length (x_axis p) = length (t_hist (hist a'))
    /\ Forall (fun x => (0 <= x <= inject_Z (window_seconds a'))%Q) (x_axis p)
    /\ (exists x0 xs, x_axis p = x0 :: xs /\ (x0 == 0)%Q)
    /\ (exists u, xlim_upper p = Some u
                  /\ (5 <= u <= inject_Z (window_seconds a'))%Q).
Proof.
  intros acts now frame a' p Hchrono Hlen Hrun Hplot.
  destruct (run_window acts now frame a' Hchrono Hlen Hrun) as [Hwin [older Hlast]].
  destruct (run_chronological (acts ++ [Frame now frame]) [] init_app a' aligned_init)
    as [_ Hsorted]; [rewrite app_nil_r; exact Hchrono | exact Hrun |].
  cbn [frame_times flat_map] in Hsorted. rewrite app_nil_r in Hsorted.
  pose proof (run_invariant window_in_range window_in_range_step _ init_app a'
                window_in_range_init Hrun) as Hw.
  unfold window_in_range in Hw.
  assert (Hw5 : (5 <= inject_Z (window_seconds a'))%Q) by (unfold Qle; cbn; lia).
  assert (Hnow : Forall (fun t => (t <= now)%Q) (t_hist (hist a'))).
  { rewrite Hlast. apply sorted_le_last. rewrite <- Hlast. exact Hsorted. }
  unfold _update_plots in Hplot.
  destruct (t_hist (hist a')) as [|t0 ts] eqn:Ht; [discriminate Hplot|].
  injection Hplot as <-. cbn [x_axis xlim_upper].
  apply StronglySorted_tail in Hsorted. destruct Hsorted as [_ Hge].
  assert (Hge0 : Forall (Qle t0) (t0 :: ts)) by (constructor; [apply Qle_refl | exact Hge]).
  assert (H0 : (now - inject_Z (window_seconds a') <= t0)%Q) by (inversion Hwin; assumption).
  assert (Hx : Forall (fun x => (0 <= x <= inject_Z (window_seconds a'))%Q)
                      (map (fun t => (t - t0)%Q) (t0 :: ts))).
  { apply Forall_map. apply Forall_forall. intros t Hin.
    pose proof (proj1 (Forall_forall _ _) Hge0 t Hin) as H1. cbn beta in H1.
    pose proof (proj1 (Forall_forall _ _) Hnow t Hin) as H2. cbn beta in H2.
    split; lra. }
  split; [cbn [length]; rewrite length_map; reflexivity|]. split; [exact Hx|]. split.
  - cbn [map]. eexists. eexists. split; [reflexivity|]. lra.
  - cbn [map] in Hx |- *. eexists. split; [reflexivity|]. split.
    + apply py_max_ge_first.
    + inversion Hx; subst. apply py_max_le; [exact Hw5|].
      apply py_max_list_le.
      * lra.
      * eapply Forall_impl; [|eassumption]. intros x Hxx. cbn beta in Hxx. lra.
Qed.

(** The frame at 70 s after the frames at 0, 10, ..., 60: the axis runs
    from 0 to 60. *)
Lemma plot_axis_witness :
  exists a' p,
    run (frames_at [0; 10; 20; 30; 40; 50; 60] ++ [Frame (inject_Z 70) zero_frame])
        init_app = Ret a'
    /\ _update_plots a' = Some p
    /\ Forall (fun x => (0 <= x <= inject_Z (window_seconds a'))%Q) (x_axis p)
    /\ exists u, xlim_upper p = Some u
                 /\ (5 <= u <= inject_Z (window_seconds a'))%Q.
Proof.
  eexists. eexists. split; [vm_compute; reflexivity|]. split; [vm_compute; reflexivity|].
  refine (let H := plot_axis_within_window
                     (frames_at [0; 10; 20; 30; 40; 50; 60]) (inject_Z 70) zero_frame
                     _ _ _ eq_refl _ _ in conj (proj1 (proj2 H)) (proj2 (proj2 (proj2 H)))).
  - unfold chronological. cbn.
    repeat (apply SSorted_cons; [|repeat (apply Forall_cons; [unfold Qle; cbn; lia|]);
                                   apply Forall_nil]).
    apply SSorted_nil.
  - vm_compute. reflexivity.
  - vm_compute. reflexivity.
Defined.

(** ** The port list *)

(** X15. [_refresh_ports] never changes a selection.  A port that is
    selected stays selected whatever the new list holds, also when the
    port is no longer in it; with nothing selected the first port of the
    list is selected, if there is one; nothing but the selection changes,
    and refreshing twice with the same list is refreshing once.  After a
    refresh that found a port, [_connect] gets past its warning and opens
    the selected port. *)
Theorem refresh_ports_keeps_selection :
  (forall (ports : list string) (a : BolaNoTuboApp),
      port_combo (entries a) <> EmptyString -> _refresh_ports ports a = a)
  /\ (forall (p : string) (ports : list string) (a : BolaNoTuboApp),
         port_combo (entries a) = EmptyString ->
         port_combo (entries (_refresh_ports (p :: ports) a)) = p)
  /\ (forall a : BolaNoTuboApp, _refresh_ports [] a = a)
  /\ (forall (ports : list string) (a : BolaNoTuboApp),
         conn (_refresh_ports ports a) = conn a
         /\ ui (_refresh_ports ports a) = ui a
         /\ hist (_refresh_ports ports a) = hist a
         /\ window_seconds (_refresh_ports ports a) = window_seconds a
         /\ mode_combo (entries (_refresh_ports ports a)) = mode_combo (entries a)
         /\ sp_height_var (entries (_refresh_ports ports a)) = sp_height_var (entries a)
         /\ sp_valve_var (entries (_refresh_ports ports a)) = sp_valve_var (entries a)
         /\ sp_duty_var (entries (_refresh_ports ports a)) = sp_duty_var (entries a))
  /\ (forall (ports : list string) (a : BolaNoTuboApp),
         _refresh_ports ports (_refresh_ports ports a) = _refresh_ports ports a)
  /\ (forall (p : string) (ports : list string) (a : BolaNoTuboApp),
         p <> EmptyString ->
         exists s, ser (conn (_connect false (_refresh_ports (p :: ports) a))) = Some s
                   /\ is_open s = true
                   /\ port s = port_combo (entries (_refresh_ports (p :: ports) a))).
Proof.
  split; [|split; [|split; [|split; [|split]]]].
  - intros ports a Hsel. unfold _refresh_ports.
    destruct (port_combo (entries a)); [elim Hsel; reflexivity | reflexivity].
  - intros p ports a Hsel. unfold _refresh_ports. rewrite Hsel. reflexivity.
  - intros a. unfold _refresh_ports. destruct (port_combo (entries a)); reflexivity.
  - intros ports a. unfold _refresh_ports.
    destruct (port_combo (entries a)); [destruct ports|]; repeat split.
  - intros ports a.
    destruct (port_combo (entries a)) as [|c sel] eqn:Hsel; [destruct ports as [|p ports]|].
    + assert (H : _refresh_ports [] a = a)
        by (unfold _refresh_ports; rewrite Hsel; reflexivity).
      rewrite H. exact H.
    + assert (H : _refresh_ports (p :: ports) a =
                  with_entries {| port_combo := p;
                                  mode_combo := mode_combo (entries a);
                                  sp_height_var := sp_height_var (entries a);
                                  sp_valve_var := sp_valve_var (entries a);
                                  sp_duty_var := sp_duty_var (entries a);
                                  window_seconds_var := window_seconds_var (entries a) |} a)
        by (unfold _refresh_ports; rewrite Hsel; reflexivity).
      rewrite H. unfold _refresh_ports. cbn [with_entries entries port_combo].
      destruct p; reflexivity.
    + assert (H : _refresh_ports ports a = a)
        by (unfold _refresh_ports; rewrite Hsel; reflexivity).
      rewrite H. exact H.
  - intros p ports a Hp. unfold _refresh_ports.
    destruct (port_combo (entries a)) as [|c sel] eqn:Hsel.
    + cbn [with_entries entries port_combo]. unfold _connect.
      cbn [with_entries entries port_combo].
      destruct p as [|c p]; [elim Hp; reflexivity|].
      cbn. eexists. repeat split.
    + unfold _connect. rewrite Hsel. cbn. eexists. repeat split.
Qed.
